(** * ytmp3: the URL form of [src/App.tsx]

    A shallow embedding of the component [App]: the video-id extractor
    [getVideoId] (through a small backtracking regular-expression engine,
    so that the pattern is transcribed and not paraphrased), the metadata
    fetcher [fetchMetadata], the handlers [handleUrlChange],
    [handleDownload] and [clearHistory], and the event loop that runs them. *)

From Stdlib Require Import NArith String Ascii Bool Lia Sorted.
From stdpp Require Import base option list gmap.

Local Open Scope N_scope.
Local Open Scope nat_scope.

(** ** Strings

    A JavaScript string is a sequence of UTF-16 code units; a pattern
    without the [u] flag works on code units.  Code units are kept as [N]
    (values below 65536; nothing below depends on the bound). *)

Fixpoint str (s : string) : list N :=
  match s with
  | EmptyString => []
  | String a s' => N_of_ascii a :: str s'
  end.

(** ** Character classes of the pattern *)

Inductive cclass :=
| CDot                      (* [.]   : anything but a line terminator *)
| CWord                     (* [\w]  : [A-Za-z0-9_] *)
| CLit (c : N)              (* a literal code unit *)
| CNoneOf (cs : list N).    (* [[^...]] *)

(** LF, CR, U+2028 and U+2029 are ECMAScript's line terminators. *)
Definition is_line_terminator (c : N) : bool :=
  ((c =? 10) || (c =? 13) || (c =? 8232) || (c =? 8233))%N.

Definition is_word_char (c : N) : bool :=
  ((97 <=? c) && (c <=? 122) || (65 <=? c) && (c <=? 90) ||
   (48 <=? c) && (c <=? 57) || (c =? 95))%N.

Definition class_match (k : cclass) (c : N) : bool :=
  match k with
  | CDot => negb (is_line_terminator c)
  | CWord => is_word_char c
  | CLit c' => (c =? c')%N
  | CNoneOf cs => negb (existsb (N.eqb c) cs)
  end.

(** ** Patterns *)

Inductive regex :=
| REps
| RBol                           (* [^] without the [m] flag *)
| RSet (k : cclass)
| RStar (k : cclass)             (* greedy star of a one-character class *)
| RSeq (r1 r2 : regex)
| RAlt (r1 r2 : regex)
| RGroup (n : nat) (r : regex).  (* capturing group number [n] *)

Fixpoint rlit (cs : list N) : regex :=
  match cs with
  | [] => REps
  | c :: cs' => RSeq (RSet (CLit c)) (rlit cs')
  end.

Declare Scope regex_scope.
Delimit Scope regex_scope with re.
Bind Scope regex_scope with regex.
Infix "⊙" := RSeq (at level 58, right associativity) : regex_scope.
Infix "⊕" := RAlt (at level 60, right associativity) : regex_scope.

(** ** The backtracking matcher

    A matcher state is the position in the subject, what is left of the
    subject from there, and the captures so far.  The matcher is written
    with a continuation, which is how backtracking reaches into what
    follows a star or an alternative. *)

Record mstate := MState {
  m_pos : nat;
  m_rest : list N;
  m_caps : gmap nat (list N)
}.

Section Matcher.
Context {R : Type}.

(** Greedy: one more character first, the continuation only after that
    has failed. *)
Fixpoint star_match (k : cclass) (pos : nat) (rest : list N)
    (caps : gmap nat (list N)) (cont : mstate → option R) : option R :=
  match rest with
  | c :: rest' =>
      if class_match k c then
        match star_match k (S pos) rest' caps cont with
        | Some res => Some res
        | None => cont (MState pos rest caps)
        end
      else cont (MState pos rest caps)
  | [] => cont (MState pos [] caps)
  end.

Fixpoint rmatch (r : regex) (x : mstate) (cont : mstate → option R)
    : option R :=
  match r with
  | REps => cont x
  | RBol => if (m_pos x =? 0) then cont x else None
  | RSet k =>
      match m_rest x with
      | c :: rest' =>
          if class_match k c
          then cont (MState (S (m_pos x)) rest' (m_caps x))
          else None
      | [] => None
      end
  | RStar k => star_match k (m_pos x) (m_rest x) (m_caps x) cont
  | RSeq r1 r2 => rmatch r1 x (λ y, rmatch r2 y cont)
  | RAlt r1 r2 =>
      match rmatch r1 x cont with
      | Some res => Some res
      | None => rmatch r2 x cont
      end
  | RGroup n r1 =>
      rmatch r1 x (λ y,
        cont (MState (m_pos y) (m_rest y)
                (<[n := take (m_pos y - m_pos x) (m_rest x)]> (m_caps y))))
  end.
End Matcher.

(** [String.prototype.match] with a pattern that has no [g] flag: the
    match is tried at index 0, then 1, and so on to the end of the
    subject; the first success is the result (here: its captures). *)
Fixpoint exec_from (r : regex) (pos : nat) (rest : list N)
    : option (gmap nat (list N)) :=
  match rmatch r (MState pos rest ∅) (λ y, Some (m_caps y)) with
  | Some caps => Some caps
  | None =>
      match rest with
      | [] => None
      | _ :: rest' => exec_from r (S pos) rest'
      end
  end.

Definition str_match (s : list N) (r : regex) : option (gmap nat (list N)) :=
  exec_from r 0 s.

(** ** [getVideoId]

    The pattern of the source, its parts set apart by blanks:

      ^  .*  ( youtu.be\/ | v\/ | u\/\w\/ | embed\/ | watch\?v= | &v= )
      ( [^#&?]* )  .*

    with no flag: [.] is any code unit but a line terminator, [^] is the
    start of the subject, and the stars are greedy. *)

Definition markers : regex :=
  (rlit (str "youtu") ⊙ RSet CDot ⊙ rlit (str "be/")
   ⊕ rlit (str "v/")
   ⊕ rlit (str "u/") ⊙ RSet CWord ⊙ rlit (str "/")
   ⊕ rlit (str "embed/")
   ⊕ rlit (str "watch?v=")
   ⊕ rlit (str "&v="))%re.

Definition regExp : regex :=
  (RBol ⊙ RStar CDot ⊙ RGroup 1 markers
   ⊙ RGroup 2 (RStar (CNoneOf (str "#&?"))) ⊙ RStar CDot)%re.

(** [match && match[2].length === 11 ? match[2] : null].  Group 2 takes
    part in every match of [regExp] ([regExp_group2], below), so the
    branch in which [match[2]] is undefined is never taken. *)
Definition getVideoId (url : list N) : option (list N) :=
  match str_match url regExp with
  | Some m =>
      match m !! 2 with
      | Some g => if length g =? 11 then Some g else None
      | None => None
      end
  | None => None
  end.
(** The length of the longest prefix of [rest] inside the class [k]. *)
Fixpoint span (k : cclass) (rest : list N) : nat :=
  match rest with
  | c :: rest' => if class_match k c then S (span k rest') else 0
  | [] => 0
  end.

(** ** What a match is, without the search

    [mrel r x y]: the pattern [r] can take the matcher from [x] to [y].
    The matcher's search order is left out here; it is brought back for
    [regExp] in [regExp_match_spec]. *)
Fixpoint mrel (r : regex) (x y : mstate) : Prop :=
  match r with
  | REps => y = x
  | RBol => m_pos x = 0 ∧ y = x
  | RSet k =>
      ∃ c rest', m_rest x = c :: rest' ∧ class_match k c = true ∧
                 y = MState (S (m_pos x)) rest' (m_caps x)
  | RStar k =>
      ∃ i, i ≤ span k (m_rest x) ∧
           y = MState (m_pos x + i) (drop i (m_rest x)) (m_caps x)
  | RSeq r1 r2 => ∃ z, mrel r1 x z ∧ mrel r2 z y
  | RAlt r1 r2 => mrel r1 x y ∨ mrel r2 x y
  | RGroup n r1 =>
      ∃ z, mrel r1 x z ∧
           y = MState (m_pos z) (m_rest z)
                 (<[n := take (m_pos z - m_pos x) (m_rest x)]> (m_caps z))
  end.

(** [x] reaches [y] by reading exactly the word [w], captures untouched. *)
Definition reads (x y : mstate) (w : list N) : Prop :=
  m_rest x = w ++ m_rest y ∧ m_pos y = m_pos x + length w ∧
  m_caps y = m_caps x.

(** The words of the first group of [regExp], one constructor for each
    alternative and in their order. *)
Inductive marker : list N → Prop :=
| marker_youtu_be c :
    is_line_terminator c = false → marker (str "youtu" ++ c :: str "be/")
| marker_v : marker (str "v/")
| marker_u c : is_word_char c = true → marker (str "u/" ++ c :: str "/")
| marker_embed : marker (str "embed/")
| marker_watch : marker (str "watch?v=")
| marker_amp_v : marker (str "&v=").

(** A place of the subject where the first group can match: a marker
    with no line terminator before it. *)
Definition marker_site (s pre mk tail : list N) : Prop :=
  s = pre ++ mk ++ tail ∧
  Forall (λ c, is_line_terminator c = false) pre ∧
  marker mk.

(** The rightmost such place. *)
Definition last_site (s pre mk tail : list N) : Prop :=
  marker_site s pre mk tail ∧
  ∀ pre' mk' tail', marker_site s pre' mk' tail' → length pre' ≤ length pre.

Definition is_delim (c : N) : bool := existsb (N.eqb c) (str "#&?").

(** The longest prefix of [tail] free of [#], [&] and [?]: what the
    second group takes. *)
Definition segment (tail : list N) : list N :=
  take (span (CNoneOf (str "#&?")) tail) tail.

(** The second capture of a match of [regExp], [match[2]]. *)
Definition capture2 (s : list N) : option (list N) :=
  m ← str_match s regExp; m !! 2.

(** What [getVideoId] accepts: [id] is the segment at the rightmost
    marker site, it is 11 code units long, and it ends at the end of the
    subject or before one of [#], [&], [?]. *)
Definition recognized (s id : list N) : Prop :=
  ∃ pre mk rest,
    last_site s pre mk (id ++ rest) ∧
    Forall (λ c, is_delim c = false) id ∧
    (rest = [] ∨ ∃ c rest', rest = c :: rest' ∧ is_delim c = true) ∧
    length id = 11.

(** ** Executable checks, for concrete subjects *)

(** The length of the marker that [rest] starts with, if there is one. *)
Definition marker_at (rest : list N) : option nat :=
  rmatch markers (MState 0 rest ∅) (λ y, Some (m_pos y)).

(** Is index [j] of [s] a marker site? *)
Definition site_b (s : list N) (j : nat) : bool :=
  forallb (λ c, negb (is_line_terminator c)) (take j s) &&
  bool_decide (is_Some (marker_at (drop j s))).

(** No marker site of [s] lies to the right of index [i]. *)
Definition no_site_after (s : list N) (i : nat) : bool :=
  forallb (λ j, negb (site_b s j)) (seq (S i) (length s - i)).

(** ** The extractor in the words of the specification *)

Definition is_digit (c : N) : bool := ((48 <=? c) && (c <=? 57))%N.

Fixpoint starts_with (w rest : list N) : bool :=
  match w, rest with
  | [], _ => true
  | c :: w', d :: rest' => (c =? d)%N && starts_with w' rest'
  | _ :: _, [] => false
  end.

(** Follows the spec's words: the URL shapes as the specification lists
    them, [youtu.be/], [v/], [u/<digit>/], [embed/], [watch?v=] and
    [&v=], every character for itself.  The result is the length of the
    shape that [rest] starts with. *)
Definition spec_shape_at (rest : list N) : option nat :=
  if starts_with (str "youtu.be/") rest then Some 9
  else if starts_with (str "v/") rest then Some 2
  else if match rest with
          | u :: sl :: d :: sl' :: _ =>
              (u =? 117)%N && (sl =? 47)%N && is_digit d && (sl' =? 47)%N
          | _ => false
          end then Some 4
  else if starts_with (str "embed/") rest then Some 6
  else if starts_with (str "watch?v=") rest then Some 8
  else if starts_with (str "&v=") rest then Some 3
  else None.

(** Follows the spec's words: the captured segments of length 11 that
    follow a listed shape somewhere in [s], from left to right. *)
Definition spec_ids (s : list N) : list (list N) :=
  omap (λ j,
          l ← spec_shape_at (drop j s);
          let g := segment (drop (j + l) s) in
          if length g =? 11 then Some g else None)
       (seq 0 (S (length s))).

(** Follows the spec's words: the extractor returns the identifier when
    the string matches a listed shape followed by it, and none for every
    other string. *)
Definition spec_extractor (s : list N) : Prop :=
  match getVideoId s with
  | Some id => id ∈ spec_ids s
  | None => spec_ids s = []
  end.

(** Follows the spec's words: the last place of the string, wherever it
    is, at which a marker of the pattern occurs, and the segment that
    follows the marker there. *)
Definition spec_last_occurrence (s : list N) : option nat :=
  last (List.filter (λ j, bool_decide (is_Some (marker_at (drop j s))))
          (seq 0 (S (length s)))).

Definition spec_last_segment (s : list N) : option (list N) :=
  j ← spec_last_occurrence s;
  l ← marker_at (drop j s);
  Some (segment (drop (j + l) s)).

(** * The component [App] *)

(** ** Data *)

Inductive Format := mp3 | mp4.

Global Instance Format_eq_dec : EqDecision Format.
Proof. solve_decision. Defined.

#[local] Set Warnings "-register-all".

(** A value of [JSON.parse].  A number is kept as its literal; nothing
    here computes with it. *)
Inductive json :=
| JNull
| JBool (b : bool)
| JNum (literal : list N)
| JStr (s : list N)
| JArr (items : list json)
| JObj (fields : list (list N * json)).

(** What reading a property gives: [undefined] is [None]. *)
Definition jsval := option json.

(** [data.title] and [data.author_name] arrive untyped ([data] is [any]),
    so the fields hold whatever the response held. *)
Record VideoMetadata := {
  title : jsval;
  description : jsval;
  author : jsval;
  thumbnailUrl : list N
}.

(** [quality?] and [metadata?]: [None] is [undefined]; the timestamp is
    the reading of the clock, in milliseconds. *)
Record DownloadHistory := {
  entry_url : list N;
  entry_format : Format;
  entry_quality : option (list N);
  entry_timestamp : N;
  entry_metadata : option VideoMetadata
}.

(** ** Exceptions *)

Inductive js_error :=
| FetchFailed          (* [fetch] rejects: no response *)
| JsonSyntaxError      (* [response.json()] rejects: the body is not JSON *)
| NullPropertyRead.    (* a property of [null] is read *)

Inductive completion (A : Type) :=
| Normal (a : A)
| Throw (e : js_error).
Arguments Normal {A} a.
Arguments Throw {A} e.

Definition bind {A B} (c : completion A) (f : A → completion B)
    : completion B :=
  match c with
  | Normal a => f a
  | Throw e => Throw e
  end.

(** [try { body } catch (error) { handler }] *)
Definition try_catch {A} (body : completion A)
    (handler : js_error → completion A) : completion A :=
  match body with
  | Normal a => Normal a
  | Throw e => handler e
  end.

Notation "x ←! c ; k" := (bind c (λ x, k))
  (at level 20, c at level 100, k at level 200, only parsing).

(** ** The world outside the component

    An interval carries the closure of its callback: the values of [url],
    [format], [quality] and [metadata] of the render in which
    [handleDownload] ran.  A pending request carries the continuation of
    [handleUrlChange], which holds [videoId] and nothing else. *)

Record timer := {
  t_delay : N;
  t_url : list N;
  t_format : Format;
  t_quality : list N;
  t_metadata : option VideoMetadata
}.

Record request := {
  req_url : list N;
  req_videoId : list N
}.

Inductive log_entry :=
| LogError (message : list N) (error : js_error).

(** How a request ends: [fetch] rejects, or it resolves with a response
    whose body [response.json()] parses or not.  A response with an error
    status still resolves. *)
Inductive body :=
| NotJson
| Json (data : json).

Inductive fetch_outcome :=
| Rejected
| Responded (b : body).

(** ** State

    The nine state variables of [App], then the intervals and requests in
    flight and the console. *)

Record state := {
  url : list N;
  format : Format;
  quality : list N;
  isDarkMode : bool;
  history : list DownloadHistory;
  isLoading : bool;
  progress : Z;
  metadata : option VideoMetadata;
  isLoadingMetadata : bool;
  timers : gmap nat timer;
  next_timer : nat;
  pending : gmap nat request;
  next_request : nat;
  console : list log_entry
}.

(** The setters.  A setter called with an updater function is written
    [setX (f (x st)) st]: the model applies each update once and in call
    order, as React does outside of its development double-invocation. *)

Definition setUrl (v : list N) (st : state) : state :=
  {| url := v; format := format st; quality := quality st;
     isDarkMode := isDarkMode st; history := history st;
     isLoading := isLoading st; progress := progress st;
     metadata := metadata st;
     isLoadingMetadata := isLoadingMetadata st; timers := timers st;
     next_timer := next_timer st; pending := pending st;
     next_request := next_request st; console := console st |}.

Definition setFormat (v : Format) (st : state) : state :=
  {| url := url st; format := v; quality := quality st;
     isDarkMode := isDarkMode st; history := history st;
     isLoading := isLoading st; progress := progress st;
     metadata := metadata st;
     isLoadingMetadata := isLoadingMetadata st; timers := timers st;
     next_timer := next_timer st; pending := pending st;
     next_request := next_request st; console := console st |}.

Definition setQuality (v : list N) (st : state) : state :=
  {| url := url st; format := format st; quality := v;
     isDarkMode := isDarkMode st; history := history st;
     isLoading := isLoading st; progress := progress st;
     metadata := metadata st;
     isLoadingMetadata := isLoadingMetadata st; timers := timers st;
     next_timer := next_timer st; pending := pending st;
     next_request := next_request st; console := console st |}.

Definition setIsDarkMode (v : bool) (st : state) : state :=
  {| url := url st; format := format st; quality := quality st;
     isDarkMode := v; history := history st; isLoading := isLoading st;
     progress := progress st; metadata := metadata st;
     isLoadingMetadata := isLoadingMetadata st; timers := timers st;
     next_timer := next_timer st; pending := pending st;
     next_request := next_request st; console := console st |}.

Definition setHistory (v : list DownloadHistory) (st : state) : state :=
  {| url := url st; format := format st; quality := quality st;
     isDarkMode := isDarkMode st; history := v;
     isLoading := isLoading st; progress := progress st;
     metadata := metadata st;
     isLoadingMetadata := isLoadingMetadata st; timers := timers st;
     next_timer := next_timer st; pending := pending st;
     next_request := next_request st; console := console st |}.

Definition setIsLoading (v : bool) (st : state) : state :=
  {| url := url st; format := format st; quality := quality st;
     isDarkMode := isDarkMode st; history := history st;
     isLoading := v; progress := progress st; metadata := metadata st;
     isLoadingMetadata := isLoadingMetadata st; timers := timers st;
     next_timer := next_timer st; pending := pending st;
     next_request := next_request st; console := console st |}.

Definition setProgress (v : Z) (st : state) : state :=
  {| url := url st; format := format st; quality := quality st;
     isDarkMode := isDarkMode st; history := history st;
     isLoading := isLoading st; progress := v; metadata := metadata st;
     isLoadingMetadata := isLoadingMetadata st; timers := timers st;
     next_timer := next_timer st; pending := pending st;
     next_request := next_request st; console := console st |}.

Definition setMetadata (v : option VideoMetadata) (st : state) : state :=
  {| url := url st; format := format st; quality := quality st;
     isDarkMode := isDarkMode st; history := history st;
     isLoading := isLoading st; progress := progress st; metadata := v;
     isLoadingMetadata := isLoadingMetadata st; timers := timers st;
     next_timer := next_timer st; pending := pending st;
     next_request := next_request st; console := console st |}.

Definition setIsLoadingMetadata (v : bool) (st : state) : state :=
  {| url := url st; format := format st; quality := quality st;
     isDarkMode := isDarkMode st; history := history st;
     isLoading := isLoading st; progress := progress st;
     metadata := metadata st; isLoadingMetadata := v;
     timers := timers st; next_timer := next_timer st;
     pending := pending st; next_request := next_request st;
     console := console st |}.

Definition set_timers (v : gmap nat timer) (st : state) : state :=
  {| url := url st; format := format st; quality := quality st;
     isDarkMode := isDarkMode st; history := history st;
     isLoading := isLoading st; progress := progress st;
     metadata := metadata st;
     isLoadingMetadata := isLoadingMetadata st; timers := v;
     next_timer := next_timer st; pending := pending st;
     next_request := next_request st; console := console st |}.

Definition set_next_timer (v : nat) (st : state) : state :=
  {| url := url st; format := format st; quality := quality st;
     isDarkMode := isDarkMode st; history := history st;
     isLoading := isLoading st; progress := progress st;
     metadata := metadata st;
     isLoadingMetadata := isLoadingMetadata st; timers := timers st;
     next_timer := v; pending := pending st;
     next_request := next_request st; console := console st |}.

Definition set_pending (v : gmap nat request) (st : state) : state :=
  {| url := url st; format := format st; quality := quality st;
     isDarkMode := isDarkMode st; history := history st;
     isLoading := isLoading st; progress := progress st;
     metadata := metadata st;
     isLoadingMetadata := isLoadingMetadata st; timers := timers st;
     next_timer := next_timer st; pending := v;
     next_request := next_request st; console := console st |}.

Definition set_next_request (v : nat) (st : state) : state :=
  {| url := url st; format := format st; quality := quality st;
     isDarkMode := isDarkMode st; history := history st;
     isLoading := isLoading st; progress := progress st;
     metadata := metadata st;
     isLoadingMetadata := isLoadingMetadata st; timers := timers st;
     next_timer := next_timer st; pending := pending st;
     next_request := v; console := console st |}.

Definition set_console (v : list log_entry) (st : state) : state :=
  {| url := url st; format := format st; quality := quality st;
     isDarkMode := isDarkMode st; history := history st;
     isLoading := isLoading st; progress := progress st;
     metadata := metadata st;
     isLoadingMetadata := isLoadingMetadata st; timers := timers st;
     next_timer := next_timer st; pending := pending st;
     next_request := next_request st; console := v |}.

Definition init : state :=
  {| url := []; format := mp4; quality := str "720p"; isDarkMode := false;
     history := []; isLoading := false; progress := 0%Z; metadata := None;
     isLoadingMetadata := false;
     timers := ∅; next_timer := 1; pending := ∅; next_request := 0;
     console := [] |}.

(** [setInterval] and [clearInterval] *)
Definition setInterval (tm : timer) (st : state) : state :=
  set_next_timer (S (next_timer st))
    (set_timers (<[next_timer st := tm]> (timers st)) st).

Definition clearInterval (id : nat) (st : state) : state :=
  set_timers (delete id (timers st)) st.

Definition console_error (message : list N) (error : js_error) (st : state)
    : state :=
  set_console (console st ++ [LogError message error]) st.

(** ** [fetchMetadata] *)

Definition oembed_url (videoId : list N) : list N :=
  str "https://www.youtube.com/oembed?url=https://www.youtube.com/watch?v="
  ++ videoId ++ str "&format=json".

Definition thumbnail_url (videoId : list N) : list N :=
  str "https://img.youtube.com/vi/" ++ videoId ++ str "/maxresdefault.jpg".

(** The last binding wins when [JSON.parse] meets a key twice. *)
Fixpoint own_property (fields : list (list N * json)) (key : list N) : jsval :=
  match fields with
  | [] => None
  | (k, v) :: fields' =>
      match own_property fields' key with
      | Some v' => Some v'
      | None => if decide (k = key) then Some v else None
      end
  end.

(** [data.title] and [data.author_name]: reading a property of [null]
    throws; an object gives its own property; a boolean, a number, a
    string or an array has neither of these two names, on itself or on
    its prototype. *)
Definition get_prop (data : json) (key : list N) : completion jsval :=
  match data with
  | JNull => Throw NullPropertyRead
  | JObj fields => Normal (own_property fields key)
  | _ => Normal None
  end.

Definition await_fetch (o : fetch_outcome) : completion body :=
  match o with
  | Rejected => Throw FetchFailed
  | Responded b => Normal b
  end.

Definition await_json (response : body) : completion json :=
  match response with
  | NotJson => Throw JsonSyntaxError
  | Json data => Normal data
  end.

(** The part of [fetchMetadata] before it suspends: the request leaves. *)
Definition fetchMetadata_start (videoId : list N) (st : state) : state :=
  set_next_request (S (next_request st))
    (set_pending
       (<[next_request st :=
            {| req_url := oembed_url videoId; req_videoId := videoId |}]>
          (pending st)) st).

(** The record built in the [try] block. *)
Definition fetched_metadata (videoId : list N) (o : fetch_outcome)
    : completion VideoMetadata :=
  response ←! await_fetch o;
  data ←! await_json response;
  title_ ←! get_prop data (str "title");
  author_ ←! get_prop data (str "author_name");
  description_ ←! get_prop data (str "title");
  Normal {| title := title_; author := author_; description := description_;
            thumbnailUrl := thumbnail_url videoId |}.

(** The rest of [fetchMetadata], run when the request has ended as [o].
    The two suspensions of the [try] block are one step here: between
    them the function reads no state and writes none. *)
Definition fetchMetadata_resume (videoId : list N) (o : fetch_outcome)
    (st : state) : completion state :=
  try_catch
    (md ←! fetched_metadata videoId o;
     Normal (setMetadata (Some md) st))
    (λ error,
       Normal (setMetadata None
                 (console_error (str "Error fetching metadata:") error st))).

(** ** [handleUrlChange] *)

(** Up to the suspension in [await fetchMetadata(videoId)].  A string is
    truthy when it is not empty. *)
Definition handleUrlChange (newUrl : list N) (st : state) : state :=
  let st := setUrl newUrl st in
  match getVideoId newUrl with
  | Some (c :: cs) =>
      fetchMetadata_start (c :: cs) (setIsLoadingMetadata true st)
  | _ => setMetadata None st
  end.

(** From the suspension on, for the request [rq]. *)
Definition handleUrlChange_resume (rq : request) (o : fetch_outcome)
    (st : state) : completion state :=
  st ←! fetchMetadata_resume (req_videoId rq) o st;
  Normal (setIsLoadingMetadata false st).

(** ** [handleDownload] *)

(** The entry that the callback prepends:
    [quality: format === 'mp4' ? quality : undefined]. *)
Definition new_entry (tm : timer) (now : N) : DownloadHistory :=
  {| entry_url := t_url tm;
     entry_format := t_format tm;
     entry_quality :=
       if decide (t_format tm = mp4) then Some (t_quality tm) else None;
     entry_timestamp := now;
     entry_metadata := t_metadata tm |}.

(** The callback of the interval [interval], with the closure [tm], when
    the clock reads [now]: [setProgress(prev => ...)]. *)
Definition interval_callback (interval : nat) (tm : timer) (now : N)
    (st : state) : state :=
  let prev := progress st in
  if bool_decide (prev >= 100)%Z then
    let st := clearInterval interval st in
    let st := setIsLoading false st in
    let st := setProgress 0%Z st in
    let st := setHistory (new_entry tm now :: history st) st in
    setProgress 0%Z st
  else setProgress (prev + 10)%Z st.

(** What the callback closes over when [handleDownload] runs in the
    state [st], and the delay given to [setInterval]; [metadata || undefined]
    turns [null] into [undefined], both of them [None] here. *)
Definition snapshot (st : state) : timer :=
  {| t_delay := 500%N; t_url := url st; t_format := format st;
     t_quality := quality st; t_metadata := metadata st |}.

Definition handleDownload (st : state) : state :=
  let st' := setIsLoading true st in
  setInterval (snapshot st) st'.

Definition clearHistory (st : state) : state := setHistory [] st.

(** ** What the render offers *)

(** [disabled={isLoading || !metadata}] on the submit button. *)
Definition submit_disabled (st : state) : bool :=
  isLoading st || negb (bool_decide (is_Some (metadata st))).

Definition quality_options : list (list N) :=
  [str "1080p"; str "720p"; str "480p"; str "360p"].

(** ** The event loop *)

Inductive event :=
| UrlInput (newUrl : list N)                 (* [onChange] of the URL field *)
| FetchSettled (rid : nat) (o : fetch_outcome)
| FormatClick (f : Format)
| QualitySelect (q : list N)
| ThemeClick
| Submit                                     (* [onSubmit] of the form *)
| IntervalFired (interval : nat) (now : N)
| ClearHistoryClick.

(** One turn of the loop; [None] when the event cannot happen in [st]:
    the request or the interval is not there, or the control is not
    rendered or is disabled.  The form is submitted through its submit
    button; the browser's own validation of the URL field could only
    forbid more. *)
Definition step (st : state) (ev : event) : option state :=
  match ev with
  | UrlInput newUrl => Some (handleUrlChange newUrl st)
  | FetchSettled rid o =>
      rq ← pending st !! rid;
      let st' := set_pending (delete rid (pending st)) st in
      match handleUrlChange_resume rq o st' with
      | Normal st'' => Some st''
      | Throw _ => Some st'
      end
  | FormatClick f => Some (setFormat f st)
  | QualitySelect q =>
      if decide (format st = mp4 ∧ q ∈ quality_options)
      then Some (setQuality q st) else None
  | ThemeClick => Some (setIsDarkMode (negb (isDarkMode st)) st)
  | Submit =>
      if submit_disabled st then None else Some (handleDownload st)
  | IntervalFired interval now =>
      tm ← timers st !! interval;
      Some (interval_callback interval tm now st)
  | ClearHistoryClick =>
      if decide (history st = []) then None else Some (clearHistory st)
  end.

Fixpoint run (st : state) (evs : list event) : option state :=
  match evs with
  | [] => Some st
  | ev :: evs' => st' ← step st ev; run st' evs'
  end.

Definition reachable (st : state) : Prop := ∃ evs, run init evs = Some st.

(** ** Properties of histories and runs *)

(** [quality] is set exactly on an mp4 entry. *)
Definition entry_ok (e : DownloadHistory) : Prop :=
  is_Some (entry_quality e) ↔ entry_format e = mp4.

(** What a settled request leaves in [metadata]. *)
Definition fetch_result (videoId : list N) (o : fetch_outcome)
    : option VideoMetadata :=
  match fetched_metadata videoId o with
  | Normal md => Some md
  | Throw _ => None
  end.

Definition is_tick (ev : event) : bool :=
  match ev with IntervalFired _ _ => true | _ => false end.

Definition is_clear (ev : event) : bool :=
  match ev with ClearHistoryClick => true | _ => false end.

(** The number of interval firings in a list of events. *)
Definition ticks (evs : list event) : nat :=
  length (List.filter is_tick evs).

(** No simulation and [progress] at rest, or one simulation under way. *)
Definition sim_inv (st : state) : Prop :=
  (isLoading st = false ∧ timers st = ∅ ∧ progress st = 0%Z) ∨
  (isLoading st = true ∧ ∃ interval tm, timers st = {[interval := tm]}).

(** The state variables other than [metadata] are the same in [st] and
    [st']: with [metadata], they are all that the render reads. *)
Definition same_but_metadata (st st' : state) : Prop :=
  url st' = url st ∧ format st' = format st ∧ quality st' = quality st ∧
  isDarkMode st' = isDarkMode st ∧ history st' = history st ∧
  isLoading st' = isLoading st ∧ progress st' = progress st ∧
  isLoadingMetadata st' = isLoadingMetadata st.

(** ** Sample data *)

Definition sample_id_A : list N := str "AAAAAAAAAAA".
Definition sample_id_B : list N := str "BBBBBBBBBBB".
Definition sample_url_A : list N := str "https://youtu.be/AAAAAAAAAAA".
Definition sample_url_B : list N := str "https://youtu.be/BBBBBBBBBBB".

Definition sample_response (t a : string) : fetch_outcome :=
  Responded (Json (JObj [(str "title", JStr (str t));
                         (str "author_name", JStr (str a))])).

Definition sample_metadata (videoId : list N) (t a : string) : VideoMetadata :=
  {| title := Some (JStr (str t)); description := Some (JStr (str t));
     author := Some (JStr (str a)); thumbnailUrl := thumbnail_url videoId |}.

(** The state that a list of events leads to from [init] ([init] itself
    if one of them cannot happen). *)
Definition after (evs : list event) : state := default init (run init evs).

(** ** The race policy in the words of the specification

    Follows the spec's words: a fetch is stale when a newer one has been
    launched (it is not the last one launched), or when the field no
    longer holds an identifier; a stale fetch that completes must not
    overwrite the metadata state. *)
Definition spec_stale (st : state) (rid : nat) : Prop :=
  S rid ≠ next_request st ∨ getVideoId (url st) = None.

Definition spec_stale_discarded (st : state) (rid : nat) (o : fetch_outcome)
    : Prop :=
  spec_stale st rid →
  ∀ st', step st (FetchSettled rid o) = Some st' → metadata st' = metadata st.

(** A state in which the form can be submitted. *)
Definition sample_ready : state :=
  after [UrlInput sample_url_A; FetchSettled 0 (sample_response "Title" "Author")].

(** The same, a submission later: the simulation is under way. *)
Definition sample_running : state :=
  after [UrlInput sample_url_A; FetchSettled 0 (sample_response "Title" "Author");
         Submit].

(** A whole session: a fetch, a change of format, a download. *)
Definition sample_session : list event :=
  [UrlInput sample_url_A; FetchSettled 0 (sample_response "Title" "Author");
   FormatClick mp3; Submit]
  ++ (IntervalFired 1 <$> [500; 1000; 1500; 2000; 2500; 3000; 3500; 4000;
                           4500; 5000; 5500]%N).

(** * The rest of the component *)

(** ** What the render shows

    Each definition is one conditional piece of the JSX that [App]
    returns, read off the state (or off a history entry). *)

(** [isLoadingMetadata && <Loader2 />]: the spinner. *)
Definition spinner_shown (st : state) : bool := isLoadingMetadata st.

(** [isLoading && <div style = width: progress % />]: the width of the
    progress bar, in percent, when the bar is there. *)
Definition progress_bar (st : state) : option Z :=
  if isLoading st then Some (progress st) else None.

(** [item.quality && ` - ${item.quality}`] after the format of a history
    line: a string is truthy when it is defined and not empty. *)
Definition quality_suffix (e : DownloadHistory) : list N :=
  match entry_quality e with
  | Some (c :: q) => str " - " ++ c :: q
  | _ => []
  end.

(** [item.metadata?.thumbnailUrl && <img src=... />]: the source of the
    image of a history line, when the image is there. *)
Definition thumbnail_shown (e : DownloadHistory) : option (list N) :=
  match entry_metadata e with
  | Some md =>
      match thumbnailUrl md with
      | [] => None
      | c :: u => Some (c :: u)
      end
  | None => None
  end.

(** ** Counting events *)

Definition is_submit (ev : event) : bool :=
  match ev with Submit => true | _ => false end.

Definition submits (evs : list event) : nat :=
  length (List.filter is_submit evs).

(** The readings of the clock that the interval firings of [evs] carry,
    in their order. *)
Fixpoint clock_readings (evs : list event) : list N :=
  match evs with
  | [] => []
  | IntervalFired _ now :: evs' => now :: clock_readings evs'
  | _ :: evs' => clock_readings evs'
  end.

(** ** Invariants of the reachable states *)

(** An identifier that [getVideoId] has returned for some string. *)
Definition good_id (id : list N) : Prop := ∃ s, getVideoId s = Some id.

(** A record as [fetchMetadata] builds it for such an identifier. *)
Definition meta_ok (md : VideoMetadata) : Prop :=
  description md = title md ∧
  ∃ id, good_id id ∧ thumbnailUrl md = thumbnail_url id.

Definition timer_ok (tm : timer) : Prop :=
  t_delay tm = 500%N ∧ t_quality tm ∈ quality_options ∧
  ∃ md, t_metadata tm = Some md ∧ meta_ok md.

Definition request_ok (rq : request) : Prop :=
  good_id (req_videoId rq) ∧ req_url rq = oembed_url (req_videoId rq).

Definition shown_entry_ok (e : DownloadHistory) : Prop :=
  (∀ q, entry_quality e = Some q → q ∈ quality_options) ∧
  ∃ md, entry_metadata e = Some md ∧ meta_ok md.

Definition app_inv (st : state) : Prop :=
  quality st ∈ quality_options ∧
  (∀ md, metadata st = Some md → meta_ok md) ∧
  (∀ rid rq, pending st !! rid = Some rq →
             rid < next_request st ∧ request_ok rq) ∧
  (isLoadingMetadata st = true → pending st ≠ ∅) ∧
  (∀ i tm, timers st !! i = Some tm → i < next_timer st ∧ timer_ok tm) ∧
  ((isLoading st = false ∧ timers st = ∅ ∧ progress st = 0%Z) ∨
   (isLoading st = true ∧
    ∃ i tm k, timers st = {[i := tm]} ∧
              progress st = (10 * Z.of_nat k)%Z ∧ k ≤ 10)) ∧
  Forall shown_entry_ok (history st).

(** ** More sample data *)

(** One request in flight. *)
Definition sample_fetching_events : list event := [UrlInput sample_url_A].

Definition sample_fetching : state := after sample_fetching_events.

Definition sample_ready_events : list event :=
  [UrlInput sample_url_A; FetchSettled 0 (sample_response "Title" "Author")].

(** A simulation three firings old. *)
Definition sample_midway_events : list event :=
  sample_ready_events
  ++ [Submit; IntervalFired 1 500%N; IntervalFired 1 1000%N;
      IntervalFired 1 1500%N].

Definition sample_midway : state := after sample_midway_events.

(** A simulation before its last firing. *)
Definition sample_complete_events : list event :=
  sample_midway_events
  ++ [IntervalFired 1 2000%N; IntervalFired 1 2500%N; IntervalFired 1 3000%N;
      IntervalFired 1 3500%N; IntervalFired 1 4000%N; IntervalFired 1 4500%N;
      IntervalFired 1 5000%N].

Definition sample_complete : state := after sample_complete_events.

(** The entry that [sample_session] leaves in the history. *)
Definition sample_entry : DownloadHistory :=
  new_entry (snapshot (setFormat mp3 sample_ready)) 5500%N.

(** Two downloads, one after the other. *)
Definition sample_two_downloads : list event :=
  sample_session
  ++ [Submit]
  ++ (IntervalFired 2 <$> [6000; 6500; 7000; 7500; 8000; 8500; 9000; 9500;
                           10000; 10500; 11000]%N).

(** ** An executable check: no marker anywhere in [l] *)
Definition marker_free (l : list N) : bool :=
  forallb (λ j, negb (bool_decide (is_Some (marker_at (drop j l)))))
          (seq 0 (S (length l))).

(** ** Failed fetches *)

(** The outcomes on which the [try] block of [fetchMetadata] throws
    ([fetched_metadata_Throw]). *)
Definition is_failure (o : fetch_outcome) : bool :=
  match o with
  | Rejected | Responded NotJson | Responded (Json JNull) => true
  | _ => false
  end.

Definition is_failed_fetch (ev : event) : bool :=
  match ev with FetchSettled _ o => is_failure o | _ => false end.

(** The number of fetches of [evs] that settle by failing. *)
Definition failures (evs : list event) : nat :=
  length (List.filter is_failed_fetch evs).

(** A failed fetch, then a retry of the same edit that succeeds. *)
Definition sample_retry : list event :=
  [UrlInput sample_url_A; FetchSettled 0 Rejected;
   UrlInput sample_url_A; FetchSettled 1 (Responded NotJson);
   UrlInput sample_url_A; FetchSettled 2 (sample_response "Title" "Author")].

(** ** Edits that wait *)

Definition is_edit (ev : event) : bool :=
  match ev with UrlInput _ => true | _ => false end.

(** A run in which the URL field is only edited while no request is in
    flight: no two fetches overlap. *)
Fixpoint patient_run (st : state) (evs : list event) : Prop :=
  match evs with
  | [] => True
  | ev :: evs' =>
      (is_edit ev = true → pending st = ∅) ∧
      match step st ev with
      | Some st' => patient_run st' evs'
      | None => True
      end
  end.

(** The field and the metadata agree: the thumbnail is the one of the
    identifier that the field holds. *)
Definition metadata_matches_url (st : state) : Prop :=
  ∀ md, metadata st = Some md →
        ∃ id, getVideoId (url st) = Some id ∧
              thumbnailUrl md = thumbnail_url id.

Definition patient_inv (st : state) : Prop :=
  (pending st = ∅ ∧ metadata_matches_url st) ∨
  (∃ rid rq, pending st = {[rid := rq]} ∧
             getVideoId (url st) = Some (req_videoId rq)).

(** * Properties of the matcher *)

Example getVideoId_short_link :
  getVideoId (str "https://www.youtu.be/dQw4w9WgXcQ") = Some (str "dQw4w9WgXcQ").
Proof. vm_compute. reflexivity. Qed.

Example getVideoId_watch :
  getVideoId (str "https://www.youtube.com/watch?v=dQw4w9WgXcQ&t=42")
  = Some (str "dQw4w9WgXcQ").
Proof. vm_compute. reflexivity. Qed.

Example getVideoId_not_a_url : getVideoId (str "not a url") = None.
Proof. vm_compute. reflexivity. Qed.

Lemma span_le k rest : span k rest ≤ length rest.
Proof.
  induction rest as [|c rest IH]; simpl; [lia|].
  destruct (class_match k c); lia.
Qed.

Lemma span_take k rest i :
  i ≤ span k rest → Forall (λ c, class_match k c = true) (take i rest).
Proof.
  revert i. induction rest as [|c rest IH]; intros i Hi; simpl in *.
  - destruct i; constructor.
  - destruct i as [|i]; [constructor|]. simpl.
    destruct (class_match k c) eqn:E; [|lia].
    constructor; [done|]. apply IH. lia.
Qed.

Lemma span_app k pre rest :
  Forall (λ c, class_match k c = true) pre → length pre ≤ span k (pre ++ rest).
Proof.
  induction 1 as [|c pre Hc _ IH]; simpl; [lia|]. rewrite Hc. lia.
Qed.

Lemma span_stop k rest c rest' :
  drop (span k rest) rest = c :: rest' → class_match k c = false.
Proof.
  induction rest as [|d rest IH]; simpl; [done|].
  destruct (class_match k d) eqn:E; simpl; [done|]. congruence.
Qed.

Section StarMatch.
Context {R : Type}.
Implicit Types (cont : mstate → option R).

Lemma star_match_None k pos rest caps cont :
  star_match k pos rest caps cont = None ↔
  ∀ i, i ≤ span k rest → cont (MState (pos + i) (drop i rest) caps) = None.
Proof.
  revert pos. induction rest as [|c rest IH]; intros pos; simpl.
  - split.
    + intros H i Hi. assert (i = 0) as -> by lia. by rewrite Nat.add_0_r.
    + intros H. specialize (H 0 (le_n _)). by rewrite Nat.add_0_r in H.
  - assert (∀ i, pos + S i = S pos + i) as Hs by (intros; lia).
    destruct (class_match k c) eqn:E.
    + destruct (star_match k (S pos) rest caps cont) eqn:Es.
      * split; [done|]. intros H.
        assert (star_match k (S pos) rest caps cont = None) as Hn; [|congruence].
        apply IH. intros i Hi. specialize (H (S i)).
        rewrite Hs in H. apply H. lia.
      * split.
        -- intros H0 [|i] Hi; [by rewrite Nat.add_0_r|].
           rewrite Hs. cbn [skipn].
           apply (proj1 (IH (S pos)) Es). lia.
        -- intros H. specialize (H 0). rewrite Nat.add_0_r in H. apply H. lia.
    + split.
      * intros H i Hi. assert (i = 0) as -> by lia. by rewrite Nat.add_0_r.
      * intros H. specialize (H 0 (le_n _)). by rewrite Nat.add_0_r in H.
Qed.

(** Greedy choice: the continuation's first success, from the longest
    run of class characters down to the empty one. *)
Lemma star_match_Some k pos rest caps cont res :
  star_match k pos rest caps cont = Some res ↔
  ∃ i, i ≤ span k rest ∧
       cont (MState (pos + i) (drop i rest) caps) = Some res ∧
       ∀ j, i < j → j ≤ span k rest →
            cont (MState (pos + j) (drop j rest) caps) = None.
Proof.
  revert pos res. induction rest as [|c rest IH]; intros pos res; simpl.
  - split.
    + intros H. exists 0. rewrite Nat.add_0_r. split_and!; [lia|done|lia].
    + intros (i & Hi & H & _). assert (i = 0) as -> by lia.
      by rewrite Nat.add_0_r in H.
  - assert (∀ i, pos + S i = S pos + i) as Hs by (intros; lia).
    destruct (class_match k c) eqn:E.
    + destruct (star_match k (S pos) rest caps cont) eqn:Es.
      * apply IH in Es as (i & Hi & H & Hlast). split.
        -- intros [= <-]. exists (S i). rewrite Hs. cbn [skipn].
           split_and!; [lia|done|].
           intros [|j] ? ?; [lia|]. rewrite Hs. cbn [skipn].
           apply Hlast; lia.
        -- intros (i' & Hi' & H' & Hlast'). f_equal.
           destruct (Nat.lt_trichotomy i' (S i)) as [Hlt|[->|Hgt]].
           ++ specialize (Hlast' (S i)). rewrite Hs in Hlast'.
              cbn [skipn] in Hlast'. rewrite Hlast' in H; [done|lia..].
           ++ rewrite Hs in H'. cbn [skipn] in H'. congruence.
           ++ destruct i' as [|i']; [lia|]. rewrite Hs in H'.
              cbn [skipn] in H'. rewrite Hlast in H'; [done|lia..].
      * pose proof (proj1 (star_match_None _ _ _ _ _) Es) as Hn. split.
        -- intros H. exists 0. rewrite Nat.add_0_r. split_and!; [lia|done|].
           intros [|j] ? ?; [lia|]. rewrite Hs. cbn [skipn].
           apply Hn. lia.
        -- intros ([|i] & Hi & H & _); [by rewrite Nat.add_0_r in H|].
           rewrite Hs in H. cbn [skipn] in H. rewrite Hn in H; [done|lia].
    + split.
      * intros H. exists 0. rewrite Nat.add_0_r. split_and!; [lia|done|lia].
      * intros (i & Hi & H & _). assert (i = 0) as -> by lia.
        by rewrite Nat.add_0_r in H.
Qed.

(** Under a continuation that cannot fail the star takes the whole run. *)
Lemma star_match_total k pos rest caps cont :
  (∀ y, is_Some (cont y)) →
  star_match k pos rest caps cont
  = cont (MState (pos + span k rest) (drop (span k rest) rest) caps).
Proof.
  intros Htot. destruct (Htot (MState (pos + span k rest)
    (drop (span k rest) rest) caps)) as [res Hres].
  rewrite Hres. apply star_match_Some. exists (span k rest).
  split_and!; [lia|done|lia].
Qed.
End StarMatch.

Section Search.
Context {R : Type}.
Implicit Types (cont : mstate → option R).

(** A successful search went through some match of the pattern. *)
Lemma rmatch_sound r x cont res :
  rmatch r x cont = Some res → ∃ y, mrel r x y ∧ cont y = Some res.
Proof.
  revert x cont res.
  induction r as [| |k|k|r1 IH1 r2 IH2|r1 IH1 r2 IH2|n r IH];
    intros x cont res; simpl.
  - eauto.
  - destruct (m_pos x =? 0) eqn:E; [|done].
    apply Nat.eqb_eq in E. eauto.
  - destruct (m_rest x) as [|c rest'] eqn:Er; [done|].
    destruct (class_match k c) eqn:E; [|done]. intros H.
    eexists; split; [|exact H]. eauto.
  - intros (i & Hi & H & _)%star_match_Some. eauto.
  - intros (z & Hz & (y & Hy & H)%IH2)%IH1. eauto.
  - destruct (rmatch r1 x cont) eqn:E1.
    + intros [= <-]. apply IH1 in E1 as (y & ? & ?). eauto.
    + intros (y & ? & ?)%IH2. eauto.
  - intros (z & Hz & H)%IH. eauto.
Qed.

(** Every match of the pattern that the continuation accepts makes the
    search succeed (with that match or one tried before it). *)
Lemma rmatch_complete r x y cont :
  mrel r x y → is_Some (cont y) → is_Some (rmatch r x cont).
Proof.
  revert x y cont.
  induction r as [| |k|k|r1 IH1 r2 IH2|r1 IH1 r2 IH2|n r IH];
    intros x y cont; simpl.
  - by intros ->.
  - intros [-> ->]. done.
  - intros (c & rest' & -> & -> & ->). done.
  - intros (i & Hi & ->) Hc.
    destruct (star_match k (m_pos x) (m_rest x) (m_caps x) cont) eqn:E; [done|].
    rewrite (proj1 (star_match_None _ _ _ _ _) E i Hi) in Hc.
    by destruct Hc.
  - intros (z & Hz & Hy) Hc. eapply IH1; [exact Hz|]. eapply IH2; eauto.
  - intros [H|H] Hc.
    + destruct (IH1 _ _ _ H Hc) as [res ->]. done.
    + destruct (rmatch r1 x cont); [done|]. eauto.
  - intros (z & Hz & ->) Hc. eapply IH; [exact Hz|]. done.
Qed.
End Search.

(** ** The words of the first group *)

Lemma reads_nil x y : reads x y [] ↔ y = x.
Proof.
  unfold reads. destruct x, y; simpl. rewrite Nat.add_0_r.
  split; [intros (-> & -> & ->)|intros [= -> -> ->]]; done.
Qed.

Lemma reads_app x y w1 w2 :
  reads x y (w1 ++ w2) ↔ ∃ z, reads x z w1 ∧ reads z y w2.
Proof.
  unfold reads. split.
  - intros (Hr & Hp & Hc).
    exists (MState (m_pos x + length w1) (w2 ++ m_rest y) (m_caps x)). simpl.
    rewrite Hr, Hp, Hc, length_app, <- app_assoc. split_and!; (done || lia).
  - intros (z & (Hr1 & Hp1 & Hc1) & (Hr2 & Hp2 & Hc2)).
    rewrite Hr1, Hr2, Hp2, Hp1, Hc2, Hc1, length_app, <- app_assoc.
    split_and!; (done || lia).
Qed.

Lemma mrel_RSet k x y :
  mrel (RSet k) x y ↔ ∃ c, class_match k c = true ∧ reads x y [c].
Proof.
  unfold reads. simpl. split.
  - intros (c & rest' & Hr & Hc & ->). exists c. simpl.
    split_and!; (done || lia).
  - intros (c & Hc & Hr & Hp & Hcaps). exists c, (m_rest y).
    split_and!; [done..|]. destruct y; simpl in *.
    f_equal; (done || lia).
Qed.

Lemma mrel_rlit cs x y : mrel (rlit cs) x y ↔ reads x y cs.
Proof.
  revert x. induction cs as [|c cs IH]; intros x.
  - simpl. by rewrite reads_nil.
  - change (c :: cs) with ([c] ++ cs). rewrite reads_app.
    change (rlit ([c] ++ cs)) with (RSeq (RSet (CLit c)) (rlit cs)).
    cbn [mrel]. split.
    + intros (z & (c' & rest' & Hr & Hc & ->) & Hz%IH). simpl in Hc.
      apply N.eqb_eq in Hc as ->.
      eexists; split; [|exact Hz]. unfold reads; simpl.
      split_and!; (done || lia).
    + intros (z & (Hr & Hp & Hc) & Hz). exists z. split; [|by apply IH].
      exists c, (m_rest z). simpl. rewrite N.eqb_refl.
      split_and!; [done..|]. destruct z; simpl in *. f_equal; (done || lia).
Qed.

(** A literal, one character of a class, a literal. *)
Lemma mrel_lit_set_lit a k b x y :
  mrel (rlit a ⊙ RSet k ⊙ rlit b) x y ↔
  ∃ c, class_match k c = true ∧ reads x y (a ++ c :: b).
Proof.
  cbn [mrel]. split.
  - intros (z1 & H1%mrel_rlit & z2 & (c & Hc & H2)%mrel_RSet & H3%mrel_rlit).
    exists c. split; [done|]. apply reads_app. exists z1. split; [done|].
    change (c :: b) with ([c] ++ b). apply reads_app. eauto.
  - intros (c & Hc & (z1 & H1 & H2)%reads_app).
    change (c :: b) with ([c] ++ b) in H2.
    apply reads_app in H2 as (z2 & H2 & H3).
    exists z1. split; [by apply mrel_rlit|]. exists z2.
    split; [apply mrel_RSet; eauto|by apply mrel_rlit].
Qed.

Lemma mrel_alt r1 r2 x y : mrel (r1 ⊕ r2) x y ↔ mrel r1 x y ∨ mrel r2 x y.
Proof. done. Qed.

Lemma mrel_markers x y :
  mrel markers x y ↔ ∃ mk, marker mk ∧ reads x y mk.
Proof.
  unfold markers.
  rewrite !mrel_alt, !mrel_lit_set_lit, !mrel_rlit. split.
  - intros [(c & Hc & H)|[H|[(c & Hc & H)|[H|[H|H]]]]];
      eexists; (split; [|exact H]); try by constructor.
    + constructor. simpl in Hc. by apply negb_true_iff in Hc.
  - intros (mk & Hmk & H). destruct Hmk as [c Hc| |c Hc| | |].
    + left. exists c. split; [|done]. simpl. by apply negb_true_iff.
    + right; left. done.
    + do 2 right; left. eauto.
    + do 3 right; left. done.
    + do 4 right; left. done.
    + do 5 right. done.
Qed.

(** Two markers at one place are the same marker: the alternatives begin
    with six different characters. *)
Lemma marker_unique mk mk' t t' :
  marker mk → marker mk' → mk ++ t = mk' ++ t' → mk = mk' ∧ t = t'.
Proof.
  intros [] []; simpl; intros Heq; try discriminate Heq;
    injection Heq; intros; subst; done.
Qed.

Lemma reads_unique x y y' mk mk' :
  marker mk → marker mk' → reads x y mk → reads x y' mk' → mk = mk' ∧ y = y'.
Proof.
  intros Hm Hm' (Hr & Hp & Hc) (Hr' & Hp' & Hc').
  destruct (marker_unique mk mk' (m_rest y) (m_rest y') Hm Hm') as [-> Ht];
    [congruence|].
  split; [done|]. destruct y, y'; simpl in *. f_equal; congruence.
Qed.

(** ** The match of [regExp] *)

Lemma star_match_final k pos rest caps :
  star_match k pos rest caps (λ y, Some (m_caps y)) = Some caps.
Proof. by rewrite star_match_total by (intros; eexists; done). Qed.

(** What follows the leading [.*]: a marker at the current place, then
    the segment; the trailing [.*] cannot fail. *)
Lemma after_dots_spec x caps :
  rmatch (RGroup 1 markers ⊙ RGroup 2 (RStar (CNoneOf (str "#&?"))) ⊙ RStar CDot)
    x (λ y, Some (m_caps y)) = Some caps ↔
  ∃ mk tail, marker mk ∧ m_rest x = mk ++ tail ∧
             caps = <[2 := segment tail]> (<[1 := mk]> (m_caps x)).
Proof.
  cbn [rmatch].
  set (cont := λ y : mstate, _).
  assert (∀ y, cont y = Some (<[2 := segment (m_rest y)]>
             (<[1 := take (m_pos y - m_pos x) (m_rest x)]> (m_caps y)))) as Hcont.
  { intros y. unfold cont. cbn [m_pos m_rest m_caps].
    rewrite star_match_total.
    - cbn [m_pos m_rest m_caps]. rewrite star_match_final.
      unfold segment. do 3 f_equal. lia.
    - intros z. rewrite star_match_final. done. }
  assert (∀ y mk, reads x y mk →
            take (m_pos y - m_pos x) (m_rest x) = mk) as Htake.
  { intros y mk (Hr & Hp & _). rewrite Hr, Hp.
    replace (m_pos x + length mk - m_pos x) with (length mk) by lia.
    by rewrite take_app_length. }
  split.
  - intros (y & (mk & Hmk & Hy)%mrel_markers & Hc)%rmatch_sound.
    rewrite Hcont in Hc. injection Hc as <-.
    exists mk, (m_rest y). rewrite (Htake _ _ Hy).
    destruct Hy as (Hr & _ & ->). done.
  - intros (mk & tail & Hmk & Hr & ->).
    set (y := MState (m_pos x + length mk) tail (m_caps x)).
    assert (reads x y mk) as Hy by done.
    destruct (rmatch_complete markers x y cont) as [caps' Hc'].
    { apply mrel_markers. eauto. }
    { rewrite Hcont. done. }
    rewrite Hc'.
    apply rmatch_sound in Hc' as (y' & (mk' & Hmk' & Hy')%mrel_markers & Hc').
    destruct (reads_unique x y y' mk mk' Hmk Hmk' Hy Hy') as [<- <-].
    rewrite Hcont, (Htake _ _ Hy) in Hc'. by rewrite <- Hc'.
Qed.

(** [^] rules out every start but index 0. *)
Lemma exec_from_regExp_later pos rest :
  pos ≠ 0 → exec_from regExp pos rest = None.
Proof.
  revert pos. induction rest as [|c rest IH]; intros [|pos] Hpos; try done.
  unfold regExp at 1. cbn [exec_from rmatch m_pos Nat.eqb]. by apply IH.
Qed.

Lemma str_match_regExp s :
  str_match s regExp
  = star_match CDot 0 s ∅ (λ y,
      rmatch (RGroup 1 markers ⊙ RGroup 2 (RStar (CNoneOf (str "#&?"))) ⊙ RStar CDot)
        y (λ y, Some (m_caps y))).
Proof.
  unfold str_match.
  destruct s as [|c s]; unfold regExp at 1; cbn [exec_from rmatch m_pos Nat.eqb
    m_rest m_caps];
    match goal with |- context [star_match ?k ?p ?r ?c ?f] =>
      destruct (star_match k p r c f) end; try done.
  by apply exec_from_regExp_later.
Qed.

Lemma is_dot_true c : class_match CDot c = true ↔ is_line_terminator c = false.
Proof. simpl. apply negb_true_iff. Qed.

(** The captures of [url.match(regExp)]: the match exists exactly when
    the subject has a marker site, and the groups are then read at the
    rightmost one. *)
Lemma regExp_match_spec s caps :
  str_match s regExp = Some caps ↔
  ∃ pre mk tail, last_site s pre mk tail ∧
                 caps = <[2 := segment tail]> (<[1 := mk]> ∅).
Proof.
  rewrite str_match_regExp, star_match_Some. cbn [Nat.add]. split.
  - intros (i & Hi & (mk & tail & Hmk & Hr & ->)%after_dots_spec & Hlast).
    cbn [m_rest m_caps] in *. pose proof (span_le CDot s).
    exists (take i s), mk, tail. split; [|done]. split.
    + split_and!; [|by eapply Forall_impl;
        [apply span_take|intros ? ?%is_dot_true]|done].
      by rewrite <- Hr, take_drop.
    + intros pre' mk' tail' (-> & Hpre' & Hmk').
      rewrite length_take, Nat.min_l by lia.
      destruct (decide (length pre' ≤ i)) as [|Hgt]; [done|]. exfalso.
      assert (length pre' ≤ span CDot (pre' ++ mk' ++ tail')) as Hj.
      { apply span_app. eapply Forall_impl; [done|]. by intros ? ?%is_dot_true. }
      specialize (Hlast (length pre')). rewrite drop_app_length in Hlast.
      assert (is_Some (None : option (gmap nat (list N)))) as [? ?]; [|done].
      rewrite <- Hlast by lia. eexists. apply after_dots_spec. eauto.
  - intros (pre & mk & tail & [(-> & Hpre & Hmk) Hlast] & ->).
    exists (length pre). rewrite drop_app_length. split_and!.
    + apply span_app. eapply Forall_impl; [done|]. by intros ? ?%is_dot_true.
    + apply after_dots_spec. eauto.
    + intros j Hj1 Hj2.
      match goal with |- ?t = None => destruct t eqn:E end; [|done].
      apply after_dots_spec in E as (mk' & tail' & Hmk' & Hr' & _).
      cbn [m_rest] in Hr'.
      pose proof (span_le CDot (pre ++ mk ++ tail)).
      specialize (Hlast (take j (pre ++ mk ++ tail)) mk' tail').
      rewrite length_take, Nat.min_l in Hlast by lia.
      assert (j ≤ length pre); [|lia]. apply Hlast. split_and!; [|..|done].
      * by rewrite <- Hr', take_drop.
      * eapply Forall_impl; [by apply span_take|]. by intros ? ?%is_dot_true.
Qed.

Lemma regExp_group2 s m : str_match s regExp = Some m → is_Some (m !! 2).
Proof.
  intros (pre & mk & tail & _ & ->)%regExp_match_spec.
  rewrite lookup_insert_eq. done.
Qed.

Lemma capture2_spec s g :
  capture2 s = Some g ↔
  ∃ pre mk tail, last_site s pre mk tail ∧ g = segment tail.
Proof.
  unfold capture2. split.
  - destruct (str_match s regExp) as [m|] eqn:E; [|done]. simpl.
    apply regExp_match_spec in E as (pre & mk & tail & Hsite & ->).
    rewrite lookup_insert_eq. intros [= <-]. eauto.
  - intros (pre & mk & tail & Hsite & ->).
    assert (str_match s regExp = Some (<[2 := segment tail]> (<[1 := mk]> ∅)))
      as -> by (apply regExp_match_spec; eauto).
    simpl. by rewrite lookup_insert_eq.
Qed.

Lemma getVideoId_capture2 s :
  getVideoId s =
  match capture2 s with
  | Some g => if length g =? 11 then Some g else None
  | None => None
  end.
Proof.
  unfold getVideoId, capture2. destruct (str_match s regExp); [|done]. done.
Qed.

(** ** The segment *)

Lemma not_delim_true c :
  class_match (CNoneOf (str "#&?")) c = true ↔ is_delim c = false.
Proof. apply negb_true_iff. Qed.

Lemma not_delim_false c :
  class_match (CNoneOf (str "#&?")) c = false ↔ is_delim c = true.
Proof. apply negb_false_iff. Qed.

Lemma span_exact k w rest :
  Forall (λ c, class_match k c = true) w →
  (rest = [] ∨ ∃ c rest', rest = c :: rest' ∧ class_match k c = false) →
  span k (w ++ rest) = length w.
Proof.
  intros Hw Hrest. induction Hw as [|c w Hc _ IH]; simpl.
  - destruct Hrest as [->|(c & rest' & -> & Hc)]; simpl; [done|by rewrite Hc].
  - by rewrite Hc, IH.
Qed.

Lemma segment_spec tail id :
  segment tail = id ↔
  ∃ rest, tail = id ++ rest ∧
          Forall (λ c, is_delim c = false) id ∧
          (rest = [] ∨ ∃ c rest', rest = c :: rest' ∧ is_delim c = true).
Proof.
  unfold segment. set (k := CNoneOf (str "#&?")). split.
  - intros <-. exists (drop (span k tail) tail). split_and!.
    + by rewrite take_drop.
    + eapply Forall_impl; [by apply span_take|]. by intros c Hc%not_delim_true.
    + destruct (drop (span k tail) tail) as [|c rest'] eqn:E; [by left|].
      right. exists c, rest'. split; [done|].
      by apply span_stop, not_delim_false in E.
  - intros (rest & -> & Hid & Hrest). rewrite span_exact.
    + by rewrite take_app_length.
    + eapply Forall_impl; [done|]. by intros c Hc%not_delim_true.
    + destruct Hrest as [->|(c & rest' & -> & Hc%not_delim_false)]; [by left|].
      right. eauto.
Qed.

Lemma getVideoId_recognized s id : getVideoId s = Some id ↔ recognized s id.
Proof.
  rewrite getVideoId_capture2. unfold recognized. split.
  - destruct (capture2 s) as [g|] eqn:E; [|done].
    destruct (length g =? 11) eqn:El; [|done]. intros [= ->].
    apply Nat.eqb_eq in El.
    apply capture2_spec in E as (pre & mk & tail & Hsite & Hseg).
    symmetry in Hseg. apply segment_spec in Hseg as (rest & -> & ? & ?).
    exists pre, mk, rest. done.
  - intros (pre & mk & rest & Hsite & Hid & Hrest & Hlen).
    assert (capture2 s = Some id) as ->.
    { apply capture2_spec. exists pre, mk, (id ++ rest). split; [done|].
      symmetry. apply segment_spec. eauto. }
    by rewrite Hlen.
Qed.

(** ** Checking marker sites by computation *)

Lemma marker_at_Some rest :
  is_Some (marker_at rest) ↔ ∃ mk tail, marker mk ∧ rest = mk ++ tail.
Proof.
  unfold marker_at. split.
  - intros [n (y & (mk & Hmk & Hr & _)%mrel_markers & _)%rmatch_sound].
    simpl in Hr. eauto.
  - intros (mk & tail & Hmk & ->).
    apply (rmatch_complete markers _ (MState (length mk) tail ∅)); [|done].
    apply mrel_markers. exists mk. done.
Qed.

Lemma site_b_spec s j :
  site_b s j = true → j ≤ length s →
  ∃ mk tail, marker_site s (take j s) mk tail.
Proof.
  unfold site_b. intros [Hpre Hmk]%andb_true_iff Hj.
  apply bool_decide_eq_true, marker_at_Some in Hmk as (mk & tail & Hmk & Hr).
  exists mk, tail. split_and!; [by rewrite <- Hr, take_drop| |done].
  rewrite forallb_forall in Hpre. apply Forall_forall.
  intros c Hc%list_elem_of_In%Hpre. by apply negb_true_iff.
Qed.

Lemma site_b_complete s pre mk tail :
  marker_site s pre mk tail → site_b s (length pre) = true.
Proof.
  intros (-> & Hpre & Hmk). unfold site_b.
  rewrite take_app_length, drop_app_length. apply andb_true_iff. split.
  - apply forallb_forall. intros c Hc%list_elem_of_In.
    rewrite Forall_forall in Hpre. by rewrite (Hpre c Hc).
  - apply bool_decide_eq_true, marker_at_Some. eauto.
Qed.

(** A marker site with no site to its right is the last site. *)
Lemma last_site_check s pre mk tail :
  marker_site s pre mk tail → no_site_after s (length pre) = true →
  last_site s pre mk tail.
Proof.
  intros Hsite Hno. split; [done|]. intros pre' mk' tail' Hsite'.
  destruct (decide (length pre' ≤ length pre)) as [|Hgt]; [done|]. exfalso.
  pose proof (site_b_complete _ _ _ _ Hsite') as Hb.
  unfold no_site_after in Hno. rewrite forallb_forall in Hno.
  specialize (Hno (length pre')). rewrite Hb in Hno.
  assert (negb true = true); [|done]. apply Hno.
  apply in_seq. destruct Hsite' as (-> & _). rewrite !length_app. lia.
Qed.

(** * The metadata fetcher *)

Lemma fetchMetadata_resume_result videoId o st :
  ∃ st', fetchMetadata_resume videoId o st = Normal st' ∧
         metadata st' = fetch_result videoId o.
Proof.
  unfold fetchMetadata_resume, fetch_result.
  destruct (fetched_metadata videoId o) as [md|e]; simpl; eauto.
Qed.

(** The [try] block throws in three cases and no other. *)
Lemma fetched_metadata_Throw videoId o e :
  fetched_metadata videoId o = Throw e ↔
  (o = Rejected ∧ e = FetchFailed) ∨
  (o = Responded NotJson ∧ e = JsonSyntaxError) ∨
  (o = Responded (Json JNull) ∧ e = NullPropertyRead).
Proof.
  unfold fetched_metadata. split.
  - destruct o as [|[|data]]; cbn [bind await_fetch await_json].
    + intros [= <-]. by left.
    + intros [= <-]. right; by left.
    + destruct data; cbn [bind get_prop]; try done.
      intros [= <-]. right; by right.
  - intros [[-> ->]|[[-> ->]|[-> ->]]]; done.
Qed.

Lemma fetched_metadata_Normal videoId o md :
  fetched_metadata videoId o = Normal md →
  ∃ data, o = Responded (Json data) ∧
          get_prop data (str "title") = Normal (title md) ∧
          get_prop data (str "author_name") = Normal (author md) ∧
          description md = title md ∧
          thumbnailUrl md = thumbnail_url videoId.
Proof.
  unfold fetched_metadata.
  destruct o as [|[|data]]; cbn [bind await_fetch await_json]; try done.
  destruct (get_prop data (str "title")) as [t|] eqn:Et; cbn [bind]; [|done].
  destruct (get_prop data (str "author_name")) as [a|] eqn:Ea; cbn [bind];
    [|done].
  intros [= <-]. exists data. split_and!; done.
Qed.

(** C5: when the lookup succeeds (the response parses to a JSON value
    other than [null]), [fetchMetadata] sets the metadata to a record
    whose title and author are the response's [title] and [author_name],
    whose description is the title, and whose thumbnailUrl is the fixed
    image-host template filled with the identifier and nothing else. *)
Theorem fetchMetadata_success (videoId : list N) (data : json) (st : state) :
  data ≠ JNull →
  ∃ md,
    fetchMetadata_resume videoId (Responded (Json data)) st
    = Normal (setMetadata (Some md) st) ∧
    get_prop data (str "title") = Normal (title md) ∧
    get_prop data (str "author_name") = Normal (author md) ∧
    description md = title md ∧
    thumbnailUrl md
    = str "https://img.youtube.com/vi/" ++ videoId ++ str "/maxresdefault.jpg".
Proof.
  intros Hdata. unfold fetchMetadata_resume.
  destruct (fetched_metadata videoId (Responded (Json data))) as [md|e] eqn:E.
  - exists md. split; [done|].
    apply fetched_metadata_Normal in E as (data' & [= <-] & ? & ? & ? & ?).
    done.
  - exfalso. unfold fetched_metadata in E.
    destruct data; try done; discriminate E.
Qed.

Lemma fetchMetadata_success_witness :
  ∃ md,
    fetchMetadata_resume sample_id_A (sample_response "Title" "Author") init
    = Normal (setMetadata (Some md) init) ∧
    get_prop (JObj [(str "title", JStr (str "Title"));
                    (str "author_name", JStr (str "Author"))]) (str "title")
    = Normal (title md) ∧
    get_prop (JObj [(str "title", JStr (str "Title"));
                    (str "author_name", JStr (str "Author"))])
      (str "author_name")
    = Normal (author md) ∧
    description md = title md ∧
    thumbnailUrl md
    = str "https://img.youtube.com/vi/" ++ sample_id_A
      ++ str "/maxresdefault.jpg".
Proof.
  apply (fetchMetadata_success sample_id_A
           (JObj [(str "title", JStr (str "Title"));
                  (str "author_name", JStr (str "Author"))]) init).
  discriminate.
Defined.

(** C6: when the fetch fails (no response, a body that is not JSON, or
    the body [null]), [fetchMetadata] completes normally, and so does its
    caller: no error is propagated.  The metadata is cleared, the error
    goes to the console and nowhere else: every other state variable is
    as it was. *)
Theorem fetchMetadata_failure (videoId : list N) (o : fetch_outcome)
    (st : state) :
  o = Rejected ∨ o = Responded NotJson ∨ o = Responded (Json JNull) →
  ∃ e st',
    fetchMetadata_resume videoId o st = Normal st' ∧
    metadata st' = None ∧
    console st' = console st ++ [LogError (str "Error fetching metadata:") e] ∧
    same_but_metadata st st' ∧
    handleUrlChange_resume
      {| req_url := oembed_url videoId; req_videoId := videoId |} o st
    = Normal (setIsLoadingMetadata false st').
Proof.
  intros [-> | [-> | ->]]; eexists _, _; (split; [reflexivity|]);
    unfold same_but_metadata; split_and!; reflexivity.
Qed.

Lemma fetchMetadata_failure_witness :
  ∃ e st',
    fetchMetadata_resume sample_id_A Rejected init = Normal st' ∧
    metadata st' = None ∧
    console st' = console init ++ [LogError (str "Error fetching metadata:") e] ∧
    same_but_metadata init st' ∧
    handleUrlChange_resume
      {| req_url := oembed_url sample_id_A; req_videoId := sample_id_A |}
      Rejected init
    = Normal (setIsLoadingMetadata false st').
Proof.
  apply (fetchMetadata_failure sample_id_A Rejected init).
  left. reflexivity.
Defined.

(** * The input coordinator *)

(** C7: an edit of the URL field to a value in which [getVideoId] finds
    no identifier clears the metadata at once, whatever the state was:
    the handler runs to its end without suspending and launches no
    request. *)
Theorem url_edit_without_id_clears_metadata (st : state) (newUrl : list N) :
  getVideoId newUrl = None →
  step st (UrlInput newUrl) = Some (handleUrlChange newUrl st) ∧
  metadata (handleUrlChange newUrl st) = None ∧
  url (handleUrlChange newUrl st) = newUrl ∧
  pending (handleUrlChange newUrl st) = pending st.
Proof.
  intros H. split; [done|]. unfold handleUrlChange. rewrite H. done.
Qed.

Lemma url_edit_without_id_clears_metadata_witness :
  step (setMetadata (Some (sample_metadata sample_id_A "Title" "Author")) init)
    (UrlInput (str "not a url"))
  = Some (handleUrlChange (str "not a url")
            (setMetadata (Some (sample_metadata sample_id_A "Title" "Author"))
               init)) ∧
  metadata (handleUrlChange (str "not a url")
              (setMetadata (Some (sample_metadata sample_id_A "Title" "Author"))
                 init)) = None ∧
  url (handleUrlChange (str "not a url")
         (setMetadata (Some (sample_metadata sample_id_A "Title" "Author"))
            init)) = str "not a url" ∧
  pending (handleUrlChange (str "not a url")
             (setMetadata (Some (sample_metadata sample_id_A "Title" "Author"))
                init))
  = pending (setMetadata (Some (sample_metadata sample_id_A "Title" "Author"))
               init).
Proof.
  apply (url_edit_without_id_clears_metadata
           (setMetadata (Some (sample_metadata sample_id_A "Title" "Author"))
              init) (str "not a url")).
  vm_compute. reflexivity.
Defined.

(** The stale fetch of the first of two edits, settling after the fetch
    of the second has been applied, replaces the metadata of the second;
    and a fetch that settles after the field has been emptied sets the
    metadata again. *)
Lemma stale_fetch_overwrites :
  let newer := after [UrlInput sample_url_A; UrlInput sample_url_B;
                      FetchSettled 1 (sample_response "B" "b")] in
  let emptied := after [UrlInput sample_url_A; UrlInput []] in
  (run init [UrlInput sample_url_A; UrlInput sample_url_B;
             FetchSettled 1 (sample_response "B" "b")] = Some newer ∧
   url newer = sample_url_B ∧
   metadata newer = Some (sample_metadata sample_id_B "B" "b") ∧
   (metadata <$> step newer (FetchSettled 0 (sample_response "A" "a")))
   = Some (Some (sample_metadata sample_id_A "A" "a")) ∧
   ¬ spec_stale_discarded newer 0 (sample_response "A" "a")) ∧
  (run init [UrlInput sample_url_A; UrlInput []] = Some emptied ∧
   url emptied = [] ∧ metadata emptied = None ∧
   (metadata <$> step emptied (FetchSettled 0 (sample_response "A" "a")))
   = Some (Some (sample_metadata sample_id_A "A" "a")) ∧
   ¬ spec_stale_discarded emptied 0 (sample_response "A" "a")).
Proof.
  intros newer emptied. split.
  - split_and!; [vm_compute; reflexivity..|].
    intros H.
    destruct (step newer (FetchSettled 0 (sample_response "A" "a")))
      as [st'|] eqn:Hstep; [|vm_compute in Hstep; discriminate Hstep].
    assert (spec_stale newer 0) as Hstale by (left; vm_compute; discriminate).
    pose proof (H Hstale st' Hstep) as Heq.
    assert (metadata <$> Some st' = Some (metadata newer)) as Hbad
      by (rewrite <- Heq; reflexivity).
    rewrite <- Hstep in Hbad. vm_compute in Hbad. discriminate Hbad.
  - split_and!; [vm_compute; reflexivity..|].
    intros H.
    destruct (step emptied (FetchSettled 0 (sample_response "A" "a")))
      as [st'|] eqn:Hstep; [|vm_compute in Hstep; discriminate Hstep].
    assert (spec_stale emptied 0) as Hstale
      by (right; vm_compute; reflexivity).
    pose proof (H Hstale st' Hstep) as Heq.
    assert (metadata <$> Some st' = Some (metadata emptied)) as Hbad
      by (rewrite <- Heq; reflexivity).
    rewrite <- Hstep in Hbad. vm_compute in Hbad. discriminate Hbad.
Qed.

(** C2, as the code has it: a pending fetch that settles is applied,
    whichever fetch it is.  Its result (the record on success, nothing
    on failure) becomes the metadata state, whether or not a newer fetch
    has been launched or the field has changed since; the fetch leaves
    the pending ones and the loading flag is lowered. *)
Theorem settled_fetch_is_applied (st : state) (rid : nat) (rq : request)
    (o : fetch_outcome) :
  pending st !! rid = Some rq →
  ∃ st',
    step st (FetchSettled rid o) = Some st' ∧
    metadata st' = fetch_result (req_videoId rq) o ∧
    pending st' = delete rid (pending st) ∧
    isLoadingMetadata st' = false ∧
    url st' = url st.
Proof.
  intros Hrq. unfold step. rewrite Hrq. cbn [mbind option_bind].
  unfold handleUrlChange_resume, fetchMetadata_resume, fetch_result.
  destruct (fetched_metadata (req_videoId rq) o) as [md|e];
    eexists; (split; [reflexivity|]); done.
Qed.

Lemma settled_fetch_is_applied_witness :
  ∃ st',
    step (handleUrlChange sample_url_B (handleUrlChange sample_url_A init))
      (FetchSettled 0 (sample_response "A" "a")) = Some st' ∧
    metadata st'
    = fetch_result (req_videoId {| req_url := oembed_url sample_id_A;
                                   req_videoId := sample_id_A |})
        (sample_response "A" "a") ∧
    pending st'
    = delete 0 (pending (handleUrlChange sample_url_B
                           (handleUrlChange sample_url_A init))) ∧
    isLoadingMetadata st' = false ∧
    url st'
    = url (handleUrlChange sample_url_B (handleUrlChange sample_url_A init)).
Proof.
  apply (settled_fetch_is_applied
           (handleUrlChange sample_url_B (handleUrlChange sample_url_A init))
           0 {| req_url := oembed_url sample_id_A; req_videoId := sample_id_A |}
           (sample_response "A" "a")).
  vm_compute. reflexivity.
Defined.

(** * The identifier extractor *)

Lemma no_line_terminator_check pre :
  forallb (λ c, negb (is_line_terminator c)) pre = true →
  Forall (λ c, is_line_terminator c = false) pre.
Proof.
  rewrite forallb_forall, Forall_forall.
  intros H c Hc%list_elem_of_In%H. by apply negb_true_iff.
Qed.

(** On [u/a/ABCDEFGHIJK], which holds none of the listed shapes ([a] is
    no digit), the extractor returns an identifier; on
    [watch?v=ABCDEFGHIJK&v=xy], where [watch?v=] is followed by an
    11-character segment, it returns none. *)
Lemma getVideoId_listed_shapes_counterexample :
  (spec_ids (str "u/a/ABCDEFGHIJK") = [] ∧
   getVideoId (str "u/a/ABCDEFGHIJK") = Some (str "ABCDEFGHIJK") ∧
   ¬ spec_extractor (str "u/a/ABCDEFGHIJK")) ∧
  (spec_ids (str "watch?v=ABCDEFGHIJK&v=xy") = [str "ABCDEFGHIJK"] ∧
   getVideoId (str "watch?v=ABCDEFGHIJK&v=xy") = None ∧
   ¬ spec_extractor (str "watch?v=ABCDEFGHIJK&v=xy")).
Proof.
  split; (split_and!; [vm_compute; reflexivity..|]);
    intros H; vm_compute in H.
  - by apply elem_of_nil in H.
  - discriminate H.
Qed.

(** C1, as the code has it: [getVideoId] returns [id] exactly when the
    string is [pre ++ mk ++ id ++ rest] where [pre] holds no line
    terminator, [mk] is a marker of the pattern ([youtu], any character
    but a line terminator, [be/]; [v/]; [u/], a word character, [/];
    [embed/]; [watch?v=]; [&v=]), no marker site of the string lies
    further right, [id] is 11 code units long and free of [#], [&], [?],
    and [rest] is empty or starts with one of these three.  It returns
    none for every other string; a captured segment of another length is
    rejected. *)
Theorem getVideoId_spec (s : list N) :
  (∀ id, getVideoId s = Some id ↔ recognized s id) ∧
  (getVideoId s = None ↔ ∀ id, ¬ recognized s id) ∧
  (∀ g, capture2 s = Some g → length g ≠ 11 → getVideoId s = None).
Proof.
  split_and!.
  - apply getVideoId_recognized.
  - split.
    + intros Hn id Hid%getVideoId_recognized. congruence.
    + intros Hn. destruct (getVideoId s) as [id|] eqn:E; [|done].
      apply getVideoId_recognized in E. by destruct (Hn id).
  - intros g Hg Hlen. rewrite getVideoId_capture2, Hg.
    destruct (length g =? 11) eqn:E; [|done]. by apply Nat.eqb_eq in E.
Qed.

Lemma getVideoId_spec_witness :
  recognized (str "https://www.youtu.be/dQw4w9WgXcQ") (str "dQw4w9WgXcQ").
Proof.
  apply (proj1 (getVideoId_spec (str "https://www.youtu.be/dQw4w9WgXcQ"))).
  vm_compute. reflexivity.
Defined.

(** With a line terminator before the second marker the extractor reads
    the segment after the first one, not after the last one of the
    string. *)
Lemma capture_last_occurrence_counterexample :
  (capture2 (str "v/ABCDEFGHIJK?" ++ [10%N] ++ str "v/xyz")
   = Some (str "ABCDEFGHIJK") ∧
   getVideoId (str "v/ABCDEFGHIJK?" ++ [10%N] ++ str "v/xyz")
   = Some (str "ABCDEFGHIJK") ∧
   spec_last_occurrence (str "v/ABCDEFGHIJK?" ++ [10%N] ++ str "v/xyz")
   = Some 15 ∧
   spec_last_segment (str "v/ABCDEFGHIJK?" ++ [10%N] ++ str "v/xyz")
   = Some (str "xyz")) ∧
  (capture2 (str "v/ABCDEFGHIJK?" ++ [8232%N] ++ str "v/xyz")
   = Some (str "ABCDEFGHIJK") ∧
   spec_last_segment (str "v/ABCDEFGHIJK?" ++ [8232%N] ++ str "v/xyz")
   = Some (str "xyz")).
Proof. split; split_and!; vm_compute; reflexivity. Qed.

(** C10, as the code has it: the extractor captures the segment that
    follows the last marker site, that is the last occurrence of a
    marker that has no line terminator before it; in a string without
    line terminators this is the last occurrence of a marker in the
    string.  Earlier occurrences do not count. *)
Theorem capture_at_last_site (s pre mk tail : list N) :
  last_site s pre mk tail →
  capture2 s = Some (segment tail) ∧
  getVideoId s =
    (if length (segment tail) =? 11 then Some (segment tail) else None).
Proof.
  intros Hsite.
  assert (capture2 s = Some (segment tail)) as Hc
    by (apply capture2_spec; eauto).
  split; [done|]. by rewrite getVideoId_capture2, Hc.
Qed.

Lemma capture_at_last_site_witness :
  capture2 (str "watch?v=AAAAAAAAAAA&v=BBBBBBBBBBB")
  = Some (segment (str "BBBBBBBBBBB")) ∧
  getVideoId (str "watch?v=AAAAAAAAAAA&v=BBBBBBBBBBB") =
    (if length (segment (str "BBBBBBBBBBB")) =? 11
     then Some (segment (str "BBBBBBBBBBB")) else None).
Proof.
  apply (capture_at_last_site (str "watch?v=AAAAAAAAAAA&v=BBBBBBBBBBB")
           (str "watch?v=AAAAAAAAAAA") (str "&v=") (str "BBBBBBBBBBB")).
  apply last_site_check.
  - split_and!.
    + reflexivity.
    + apply no_line_terminator_check. vm_compute. reflexivity.
    + apply marker_amp_v.
  - vm_compute. reflexivity.
Defined.

(** * The download simulator and the history *)

Lemma handleUrlChange_frame newUrl st :
  let st' := handleUrlChange newUrl st in
  format st' = format st ∧ quality st' = quality st ∧
  history st' = history st ∧ isLoading st' = isLoading st ∧
  progress st' = progress st ∧ timers st' = timers st ∧
  next_timer st' = next_timer st.
Proof.
  unfold handleUrlChange. destruct (getVideoId newUrl) as [[|c cs]|]; done.
Qed.

Lemma handleUrlChange_resume_frame rq o st :
  ∃ st', handleUrlChange_resume rq o st = Normal st' ∧
    url st' = url st ∧ format st' = format st ∧ quality st' = quality st ∧
    history st' = history st ∧ isLoading st' = isLoading st ∧
    progress st' = progress st ∧ timers st' = timers st ∧
    next_timer st' = next_timer st ∧ pending st' = pending st.
Proof.
  unfold handleUrlChange_resume, fetchMetadata_resume.
  destruct (fetched_metadata (req_videoId rq) o); eexists; done.
Qed.

(** What an event other than a submission, an interval firing and a
    clearing of the history leaves alone. *)
Lemma step_frame st ev st' :
  step st ev = Some st' →
  match ev with
  | Submit | IntervalFired _ _ => True
  | _ =>
      isLoading st' = isLoading st ∧ progress st' = progress st ∧
      timers st' = timers st ∧ next_timer st' = next_timer st ∧
      (if is_clear ev then history st' = [] else history st' = history st)
  end.
Proof.
  destruct ev as [newUrl|rid o|f|q| | |i now|]; cbn [step is_clear]; try done.
  - intros [= <-].
    destruct (handleUrlChange_frame newUrl st) as (_ & _ & ? & ? & ? & ? & ?).
    done.
  - destruct (pending st !! rid) as [rq|]; [|done]. cbn [mbind option_bind].
    destruct (handleUrlChange_resume_frame rq o
                (set_pending (delete rid (pending st)) st))
      as (st'' & -> & _ & _ & _ & ? & ? & ? & ? & ? & _).
    intros [= <-]. done.
  - intros [= <-]. done.
  - case_decide; [|done]. intros [= <-]. done.
  - intros [= <-]. done.
  - case_decide; [done|]. intros [= <-]. done.
Qed.

Lemma new_entry_ok tm now : entry_ok (new_entry tm now).
Proof.
  unfold entry_ok, new_entry. simpl. case_decide as Hf.
  - split; [done|]. by eexists.
  - split; [by intros [? ?]|done].
Qed.

Lemma step_history_ok st ev st' :
  Forall entry_ok (history st) → step st ev = Some st' →
  Forall entry_ok (history st').
Proof.
  intros Hok Hstep. pose proof (step_frame _ _ _ Hstep) as Hfr.
  destruct ev as [newUrl|rid o|f|q| | |i now|]; cbn [is_clear] in Hfr;
    try (destruct Hfr as (_ & _ & _ & _ & ->); done).
  - cbn [step] in Hstep. case_match; [done|]. by injection Hstep as <-.
  - cbn [step] in Hstep. destruct (timers st !! i) as [tm|]; [|done].
    injection Hstep as <-. unfold interval_callback. case_bool_decide.
    + simpl. constructor; [apply new_entry_ok|done].
    + done.
Qed.

Lemma run_app st evs1 evs2 :
  run st (evs1 ++ evs2) = st' ← run st evs1; run st' evs2.
Proof.
  revert st. induction evs1 as [|ev evs1 IH]; intros st; simpl; [done|].
  destruct (step st ev); simpl; [apply IH|done].
Qed.

Lemma step_sim_inv st ev st' : sim_inv st → step st ev = Some st' → sim_inv st'.
Proof.
  intros Hinv Hstep. pose proof (step_frame _ _ _ Hstep) as Hfr.
  destruct ev as [newUrl|rid o|f|q| | |i now|];
    try (destruct Hfr as (Hl & Hp & Ht & _); unfold sim_inv;
         rewrite Hl, Hp, Ht; exact Hinv).
  - cbn [step] in Hstep. unfold submit_disabled in Hstep.
    destruct (isLoading st) eqn:El; [done|]. simpl in Hstep.
    case_match; [done|]. injection Hstep as <-.
    destruct Hinv as [(_ & Ht & Hp)|(Hl & _)]; [|congruence].
    right. split; [done|]. simpl. rewrite Ht. eexists _, _.
    apply insert_empty.
  - cbn [step] in Hstep. destruct (timers st !! i) as [tm|] eqn:Ei; [|done].
    injection Hstep as <-.
    destruct Hinv as [(_ & Ht & _)|(Hl & j & tm' & Ht)].
    { rewrite Ht in Ei. by rewrite lookup_empty in Ei. }
    rewrite Ht in Ei. apply lookup_singleton_Some in Ei as [<- <-].
    unfold interval_callback. case_bool_decide.
    + left. simpl. rewrite Ht. split_and!; [done| |done].
      apply delete_singleton_eq.
    + right. simpl. eauto.
Qed.

Lemma run_sim_inv st evs st' : sim_inv st → run st evs = Some st' → sim_inv st'.
Proof.
  revert st. induction evs as [|ev evs IH]; intros st Hinv; simpl.
  - by intros [= <-].
  - destruct (step st ev) as [st1|] eqn:E; [|done]. simpl.
    apply IH. by eapply step_sim_inv.
Qed.

Lemma reachable_sim_inv st : reachable st → sim_inv st.
Proof.
  intros [evs Hrun]. eapply run_sim_inv; [|done]. by left.
Qed.

Lemma incrementing_tick t tm x now :
  timers x = {[t := tm]} → (progress x < 100)%Z →
  ∃ st2, step x (IntervalFired t now) = Some st2 ∧
         progress st2 = (progress x + 10)%Z ∧ history st2 = history x ∧
         timers st2 = timers x ∧ isLoading st2 = isLoading x ∧
         next_timer st2 = next_timer x.
Proof.
  intros Ht Hp. cbn [step]. rewrite Ht, lookup_singleton_eq.
  cbn [mbind option_bind]. unfold interval_callback.
  rewrite bool_decide_eq_false_2 by lia. eexists. split; [done|].
  simpl. by rewrite Ht.
Qed.

Lemma completing_tick t tm x now :
  timers x = {[t := tm]} → (progress x >= 100)%Z →
  ∃ st2, step x (IntervalFired t now) = Some st2 ∧
         progress st2 = 0%Z ∧ isLoading st2 = false ∧ timers st2 = ∅ ∧
         history st2 = new_entry tm now :: history x ∧
         ∀ i now', step st2 (IntervalFired i now') = None.
Proof.
  intros Ht Hp. cbn [step]. rewrite Ht, lookup_singleton_eq.
  cbn [mbind option_bind]. unfold interval_callback.
  rewrite bool_decide_eq_true_2 by lia. eexists. split; [done|].
  simpl. rewrite Ht, delete_singleton_eq. split_and!; done.
Qed.

(** While the simulation runs: whatever else happens, every firing of
    the interval adds 10 to [progress], and the history only changes by
    being cleared. *)
Lemma running_phase t tm evs :
  ∀ x k st1,
    isLoading x = true → timers x = {[t := tm]} →
    progress x = (10 * Z.of_nat k)%Z → k + ticks evs ≤ 10 →
    run x evs = Some st1 →
    progress st1 = (10 * Z.of_nat (k + ticks evs))%Z ∧
    isLoading st1 = true ∧ timers st1 = {[t := tm]} ∧
    next_timer st1 = next_timer x ∧
    history st1 = (if existsb is_clear evs then [] else history x).
Proof.
  induction evs as [|ev evs IH]; intros x k st1 Hl Ht Hp Hk Hrun.
  - injection Hrun as <-. unfold ticks. simpl. rewrite Nat.add_0_r. done.
  - simpl in Hrun. destruct (step x ev) as [x'|] eqn:Hstep; [|done].
    simpl in Hrun. pose proof (step_frame _ _ _ Hstep) as Hfr.
    destruct ev as [newUrl|rid o|f|q| | |i now|]; cbn [is_clear] in Hfr;
      try (destruct Hfr as (Hl' & Hp' & Ht' & Hn' & Hh');
           destruct (IH x' k st1) as (? & ? & ? & ? & Hh);
             [congruence..|exact Hk|exact Hrun|];
           split_and!; [done..|congruence|];
           cbn [existsb is_clear orb]; rewrite Hh, ?Hh'; done).
    + cbn [step] in Hstep. unfold submit_disabled in Hstep.
      rewrite Hl in Hstep. done.
    + assert (ticks (IntervalFired i now :: evs) = S (ticks evs)) as Hticks
        by done.
      rewrite Hticks in *. cbn [existsb is_clear orb].
      assert (i = t) as ->.
      { cbn [step] in Hstep. rewrite Ht in Hstep.
        destruct (decide (i = t)) as [|Hne]; [done|].
        by rewrite lookup_singleton_ne in Hstep. }
      destruct (incrementing_tick t tm x now Ht ltac:(lia))
        as (x'' & Hstep' & Hp' & Hh' & Ht' & Hl' & Hn').
      rewrite Hstep in Hstep'. injection Hstep' as <-.
      destruct (IH x' (S k) st1) as (? & ? & ? & ? & Hh);
        [congruence|congruence|lia|lia|exact Hrun|].
      split_and!; [|done..|congruence|by rewrite Hh, Hh'].
      replace (k + S (ticks evs)) with (S k + ticks evs) by lia. done.
    + destruct Hfr as (Hl' & Hp' & Ht' & Hn' & Hh').
      destruct (IH x' k st1) as (? & ? & ? & ? & Hh);
        [congruence..|exact Hk|exact Hrun|].
      split_and!; [done..|congruence|].
      cbn [existsb is_clear orb]. rewrite Hh, Hh'. by destruct (existsb _ _).
Qed.

Lemma ticks_fired t nows : ticks (IntervalFired t <$> nows) = length nows.
Proof.
  unfold ticks. induction nows as [|now nows IH]; simpl; [done|].
  f_equal. exact IH.
Qed.

Lemma no_clear_fired t nows : existsb is_clear (IntervalFired t <$> nows) = false.
Proof. induction nows as [|now nows IH]; simpl; done. Qed.

(** The firings themselves can always happen. *)
Lemma running_ticks t tm nows :
  ∀ x k,
    isLoading x = true → timers x = {[t := tm]} →
    progress x = (10 * Z.of_nat k)%Z → k + length nows ≤ 10 →
    is_Some (run x (IntervalFired t <$> nows)).
Proof.
  induction nows as [|now nows IH]; intros x k Hl Ht Hp Hk; [done|].
  simpl in Hk. cbn [fmap list_fmap run].
  destruct (incrementing_tick t tm x now Ht ltac:(lia))
    as (x' & -> & Hp' & _ & Ht' & Hl' & _).
  cbn [mbind option_bind]. apply (IH x' (S k)); [congruence..|lia|lia].
Qed.

(** C3: a submission (the form submitted in a reachable state) starts
    the simulation at progress 0, with an interval of 500 time units that
    holds the url, format, quality and metadata of that moment.  Whatever
    else happens meanwhile, each of the first ten firings adds exactly 10
    to the progress and appends nothing; the firing that finds the
    progress at 100 cancels the interval, resets the progress to 0, ends
    the loading state and prepends exactly one entry, made of the values
    held by the interval; after it the interval cannot fire again, so no
    second entry follows.  The firings can always happen: nothing stops
    the simulation before its end. *)
Theorem download_simulation (st st0 : state) :
  reachable st → step st Submit = Some st0 →
  (is_Some (metadata st) ∧ isLoading st0 = true ∧ progress st0 = 0%Z ∧
   timers st0 = {[next_timer st := snapshot st]} ∧
   t_delay (snapshot st) = 500%N) ∧
  (∀ nows, length nows ≤ 10 →
     is_Some (run st0 (IntervalFired (next_timer st) <$> nows))) ∧
  ∀ evs st1, run st0 evs = Some st1 → ticks evs ≤ 10 →
    progress st1 = (10 * Z.of_nat (ticks evs))%Z ∧
    isLoading st1 = true ∧
    timers st1 = {[next_timer st := snapshot st]} ∧
    history st1 = (if existsb is_clear evs then [] else history st) ∧
    ∀ now, ∃ st2,
      step st1 (IntervalFired (next_timer st) now) = Some st2 ∧
      if decide (ticks evs < 10) then
        progress st2 = (progress st1 + 10)%Z ∧ isLoading st2 = true ∧
        timers st2 = timers st1 ∧ history st2 = history st1
      else
        progress st2 = 0%Z ∧ isLoading st2 = false ∧ timers st2 = ∅ ∧
        history st2 =
          {| entry_url := url st; entry_format := format st;
             entry_quality :=
               if decide (format st = mp4) then Some (quality st) else None;
             entry_timestamp := now;
             entry_metadata := metadata st |} :: history st1 ∧
        ∀ i now', step st2 (IntervalFired i now') = None.
Proof.
  intros Hinv%reachable_sim_inv Hstep.
  cbn [step] in Hstep. unfold submit_disabled in Hstep.
  destruct (isLoading st) eqn:El; [done|]. cbn [orb] in Hstep.
  case_bool_decide as Hmd; [|done]. cbn [negb] in Hstep.
  injection Hstep as <-.
  destruct Hinv as [(_ & Ht & Hp)|(? & _)]; [|congruence].
  assert (timers (handleDownload st) = {[next_timer st := snapshot st]}) as Ht0.
  { simpl. rewrite Ht. apply insert_empty. }
  split; [done|]. split.
  { intros nows Hlen.
    apply (running_ticks (next_timer st) (snapshot st) nows
             (handleDownload st) 0); [done|done|simpl; lia|lia]. }
  intros evs st1 Hrun Hticks.
  destruct (running_phase (next_timer st) (snapshot st) evs
              (handleDownload st) 0 st1) as (Hp1 & Hl1 & Ht1 & _ & Hh1);
    [done|done|simpl; lia|done|done|].
  cbn [Nat.add] in Hp1. split_and!; [done..|].
  intros now. case_decide as Hlt.
  - destruct (incrementing_tick _ _ st1 now Ht1 ltac:(lia))
      as (st2 & ? & ? & ? & ? & ? & _).
    exists st2. split_and!; congruence.
  - destruct (completing_tick _ _ st1 now Ht1 ltac:(lia))
      as (st2 & ? & ? & ? & ? & ? & ?).
    exists st2. done.
Qed.

Lemma download_simulation_witness :
  (is_Some (metadata sample_ready) ∧
   isLoading (handleDownload sample_ready) = true ∧
   progress (handleDownload sample_ready) = 0%Z ∧
   timers (handleDownload sample_ready)
   = {[next_timer sample_ready := snapshot sample_ready]} ∧
   t_delay (snapshot sample_ready) = 500%N) ∧
  (∀ nows, length nows ≤ 10 →
     is_Some (run (handleDownload sample_ready)
                (IntervalFired (next_timer sample_ready) <$> nows))) ∧
  ∀ evs st1, run (handleDownload sample_ready) evs = Some st1 →
    ticks evs ≤ 10 →
    progress st1 = (10 * Z.of_nat (ticks evs))%Z ∧
    isLoading st1 = true ∧
    timers st1 = {[next_timer sample_ready := snapshot sample_ready]} ∧
    history st1
    = (if existsb is_clear evs then [] else history sample_ready) ∧
    ∀ now, ∃ st2,
      step st1 (IntervalFired (next_timer sample_ready) now) = Some st2 ∧
      if decide (ticks evs < 10) then
        progress st2 = (progress st1 + 10)%Z ∧ isLoading st2 = true ∧
        timers st2 = timers st1 ∧ history st2 = history st1
      else
        progress st2 = 0%Z ∧ isLoading st2 = false ∧ timers st2 = ∅ ∧
        history st2 =
          {| entry_url := url sample_ready;
             entry_format := format sample_ready;
             entry_quality :=
               if decide (format sample_ready = mp4)
               then Some (quality sample_ready) else None;
             entry_timestamp := now;
             entry_metadata := metadata sample_ready |} :: history st1 ∧
        ∀ i now', step st2 (IntervalFired i now') = None.
Proof.
  apply (download_simulation sample_ready (handleDownload sample_ready)).
  - exists [UrlInput sample_url_A;
            FetchSettled 0 (sample_response "Title" "Author")].
    vm_compute. reflexivity.
  - vm_compute. reflexivity.
Defined.

(** C4: in every history that the component builds, an entry has its
    quality set if and only if its format is mp4: the property holds of
    the entry that a finished download prepends, and every event keeps
    it, so it holds after any run from a history that has it, the empty
    one of the start among them. *)
Theorem history_quality_iff_mp4 (st : state) (evs : list event) (st' : state) :
  (∀ e, e ∈ history st → is_Some (entry_quality e) ↔ entry_format e = mp4) →
  run st evs = Some st' →
  ∀ e, e ∈ history st' → is_Some (entry_quality e) ↔ entry_format e = mp4.
Proof.
  intros Hok%Forall_forall Hrun. apply Forall_forall.
  revert st Hok Hrun. induction evs as [|ev evs IH]; intros st Hok; simpl.
  - by intros [= <-].
  - destruct (step st ev) as [st1|] eqn:E; [|done]. simpl.
    apply IH. by eapply step_history_ok.
Qed.

Lemma history_quality_iff_mp4_witness :
  run init sample_session = Some (after sample_session) ∧
  length (history (after sample_session)) = 1 ∧
  ∀ e, e ∈ history (after sample_session) →
       is_Some (entry_quality e) ↔ entry_format e = mp4.
Proof.
  split_and!; [vm_compute; reflexivity..|].
  apply (history_quality_iff_mp4 init sample_session (after sample_session)).
  - intros e He. vm_compute in He. by apply elem_of_nil in He.
  - vm_compute. reflexivity.
Defined.

(** C8: in every reachable state the submit control is disabled exactly
    when there is no metadata or a simulation is running (an interval is
    set); the form cannot be submitted then, and can otherwise. *)
Theorem submit_control (st : state) :
  reachable st →
  (submit_disabled st = true ↔ metadata st = None ∨ timers st ≠ ∅) ∧
  (submit_disabled st = true → step st Submit = None) ∧
  (submit_disabled st = false → step st Submit = Some (handleDownload st)).
Proof.
  intros Hinv%reachable_sim_inv. split_and!.
  - unfold submit_disabled.
    destruct Hinv as [(-> & Ht & _)|(-> & i & tm & Ht)]; rewrite Ht.
    + cbn [orb]. rewrite negb_true_iff, bool_decide_eq_false.
      rewrite <- eq_None_not_Some. split; [by left|]. by intros [?|?].
    + cbn [orb]. split; [|done]. intros _. right.
      apply insert_non_empty.
  - intros H. cbn [step]. by rewrite H.
  - intros H. cbn [step]. by rewrite H.
Qed.

Lemma submit_control_witness :
  (submit_disabled sample_running = true ↔
   metadata sample_running = None ∨ timers sample_running ≠ ∅) ∧
  (submit_disabled sample_running = true →
   step sample_running Submit = None) ∧
  (submit_disabled sample_running = false →
   step sample_running Submit = Some (handleDownload sample_running)).
Proof.
  apply (submit_control sample_running).
  exists [UrlInput sample_url_A;
          FetchSettled 0 (sample_response "Title" "Author"); Submit].
  vm_compute. reflexivity.
Defined.

(** C9: [handleDownload] itself does not look at the metadata.  Run in
    an idle state without metadata, it starts the interval all the same;
    ten firings bring the progress to 100 and the next one resets it and
    prepends an entry whose metadata is absent. *)
Theorem handleDownload_without_metadata (st : state) (nows : list N) (now : N) :
  metadata st = None → progress st = 0%Z → timers st = ∅ →
  length nows = 10 →
  ∃ st1 st2,
    run (handleDownload st) (IntervalFired (next_timer st) <$> nows)
    = Some st1 ∧
    progress st1 = 100%Z ∧ isLoading st1 = true ∧
    step st1 (IntervalFired (next_timer st) now) = Some st2 ∧
    progress st2 = 0%Z ∧ isLoading st2 = false ∧ timers st2 = ∅ ∧
    history st2 =
      {| entry_url := url st; entry_format := format st;
         entry_quality :=
           if decide (format st = mp4) then Some (quality st) else None;
         entry_timestamp := now;
         entry_metadata := None |} :: history st.
Proof.
  intros Hmd Hp Ht Hlen.
  assert (timers (handleDownload st) = {[next_timer st := snapshot st]}) as Ht0.
  { simpl. rewrite Ht. apply insert_empty. }
  destruct (running_ticks (next_timer st) (snapshot st) nows
              (handleDownload st) 0) as [st1 Hrun];
    [done|done|simpl; lia|lia|].
  destruct (running_phase (next_timer st) (snapshot st)
              (IntervalFired (next_timer st) <$> nows)
              (handleDownload st) 0 st1) as (Hp1 & Hl1 & Ht1 & _ & Hh1);
    [done|done|simpl; lia|rewrite ticks_fired; lia|done|].
  rewrite ticks_fired, Hlen in Hp1. rewrite no_clear_fired in Hh1.
  destruct (completing_tick _ _ st1 now Ht1 ltac:(lia))
    as (st2 & ? & ? & ? & ? & Hh2 & _).
  exists st1, st2. split_and!; [done|lia|done..|].
  rewrite Hh2, Hh1. unfold new_entry, snapshot. simpl. by rewrite Hmd.
Qed.

Lemma handleDownload_without_metadata_witness :
  ∃ st1 st2,
    run (handleDownload init)
      (IntervalFired (next_timer init) <$>
         [500; 1000; 1500; 2000; 2500; 3000; 3500; 4000; 4500; 5000]%N)
    = Some st1 ∧
    progress st1 = 100%Z ∧ isLoading st1 = true ∧
    step st1 (IntervalFired (next_timer init) 5500%N) = Some st2 ∧
    progress st2 = 0%Z ∧ isLoading st2 = false ∧ timers st2 = ∅ ∧
    history st2 =
      {| entry_url := url init; entry_format := format init;
         entry_quality :=
           if decide (format init = mp4) then Some (quality init) else None;
         entry_timestamp := 5500%N;
         entry_metadata := None |} :: history init.
Proof.
  apply (handleDownload_without_metadata init
           [500; 1000; 1500; 2000; 2500; 3000; 3500; 4000; 4500; 5000]%N
           5500%N); reflexivity.
Defined.

(** * Invariants of the reachable states *)

Lemma fetch_result_ok videoId o md :
  good_id videoId → fetch_result videoId o = Some md → meta_ok md.
Proof.
  unfold fetch_result. intros Hid.
  destruct (fetched_metadata videoId o) as [md'|] eqn:E; [|done].
  intros [= <-].
  apply fetched_metadata_Normal in E as (_ & _ & _ & _ & Hd & Ht).
  split; [done|]. eauto.
Qed.

Lemma init_app_inv : app_inv init.
Proof.
  unfold app_inv. simpl. split_and!; try done.
  - unfold quality_options. set_solver.
  - by left.
Qed.

Lemma step_app_inv st ev st' : app_inv st → step st ev = Some st' → app_inv st'.
Proof.
  intros (Hq & Hmd & Hrq & Hsp & Htm & Hsim & Hh) Hstep.
  destruct ev as [newUrl|rid o|f|q| | |i now|]; cbn [step] in Hstep.
  - injection Hstep as <-. unfold handleUrlChange.
    destruct (getVideoId newUrl) as [[|c cs]|] eqn:Eid;
      unfold app_inv; simpl; split_and!; try done.
    + intros rid rq [[<- <-]|[Hne Hl]]%lookup_insert_Some.
      * split; [lia|]. split; [|done]. simpl. by exists newUrl.
      * destruct (Hrq _ _ Hl). split; [lia|done].
    + intros _. apply insert_non_empty.
  - destruct (pending st !! rid) as [rq|] eqn:Erq; [|done].
    cbn [mbind option_bind] in Hstep.
    destruct (Hrq _ _ Erq) as (_ & Hid & _).
    unfold handleUrlChange_resume, fetchMetadata_resume in Hstep.
    pose proof (fetch_result_ok (req_videoId rq) o) as Hres.
    unfold fetch_result in Hres.
    destruct (fetched_metadata (req_videoId rq) o) as [md|e];
      cbn [bind try_catch] in Hstep; injection Hstep as <-;
      unfold app_inv; simpl; split_and!; try done.
    + intros md' [= <-]. by apply Hres.
    + intros rid' rq' [_ Hl]%lookup_delete_Some. by apply Hrq.
    + intros rid' rq' [_ Hl]%lookup_delete_Some. by apply Hrq.
  - injection Hstep as <-. done.
  - case_decide as Hg; [|done]. injection Hstep as <-.
    unfold app_inv. simpl. split_and!; try done. by destruct Hg.
  - injection Hstep as <-. done.
  - unfold submit_disabled in Hstep.
    destruct (isLoading st) eqn:El; [done|]. cbn [orb] in Hstep.
    case_bool_decide as Hm; [|done]. cbn [negb] in Hstep.
    injection Hstep as <-.
    destruct Hsim as [(_ & Ht & Hp)|(? & _)]; [|congruence].
    unfold app_inv. simpl. rewrite Ht, Hp. split_and!; try done.
    + intros i tm [[<- <-]|[_ Hl]]%lookup_insert_Some;
        [|by rewrite lookup_empty in Hl].
      split; [lia|]. unfold timer_ok, snapshot. simpl.
      split_and!; [done..|]. destruct Hm as [md Hm]. eauto.
    + right. split; [done|]. exists (next_timer st), (snapshot st), 0.
      split_and!; [apply insert_empty|done|lia].
  - destruct (timers st !! i) as [tm|] eqn:Ei; [|done].
    cbn [mbind option_bind] in Hstep. injection Hstep as <-.
    destruct (Htm _ _ Ei) as (_ & _ & Hqt & md & Hmt & Hmok).
    destruct Hsim as [(_ & Ht & _)|(Hl & j & tm' & k & Ht & Hp & Hk)].
    { rewrite Ht in Ei. by rewrite lookup_empty in Ei. }
    rewrite Ht in Ei. apply lookup_singleton_Some in Ei as [<- <-].
    unfold interval_callback. case_bool_decide as Hge;
      unfold app_inv; simpl; split_and!; try done.
    + intros i' tm0 [_ Hl0]%lookup_delete_Some. by apply Htm.
    + left. rewrite Ht. split_and!; [done| |done]. apply delete_singleton_eq.
    + constructor; [|done]. unfold shown_entry_ok, new_entry. simpl.
      split; [|eauto]. intros q. case_decide; [|done]. by intros [= <-].
    + right. split; [done|]. exists j, tm', (S k).
      split_and!; [done|lia|lia].
  - case_decide; [done|]. injection Hstep as <-.
    unfold app_inv. simpl. split_and!; done.
Qed.

Lemma run_app_inv st evs st' : app_inv st → run st evs = Some st' → app_inv st'.
Proof.
  revert st. induction evs as [|ev evs IH]; intros st Hinv; simpl.
  - by intros [= <-].
  - destruct (step st ev) as [st1|] eqn:E; [|done]. simpl.
    apply IH. by eapply step_app_inv.
Qed.

Lemma reachable_app_inv st : reachable st → app_inv st.
Proof. intros [evs Hrun]. eapply run_app_inv; [apply init_app_inv|done]. Qed.
Lemma reachable_after evs : is_Some (run init evs) → reachable (after evs).
Proof. intros [st H]. exists evs. unfold after. by rewrite H. Qed.

Lemma good_id_shape id :
  good_id id → length id = 11 ∧ Forall (λ c, is_delim c = false) id.
Proof.
  intros [s (pre & mk & rest & _ & Hid & _ & Hlen)%getVideoId_recognized].
  done.
Qed.

Lemma run_history_ok st evs st' :
  Forall entry_ok (history st) → run st evs = Some st' →
  Forall entry_ok (history st').
Proof.
  revert st. induction evs as [|ev evs IH]; intros st Hok; simpl.
  - by intros [= <-].
  - destruct (step st ev) as [st1|] eqn:E; [|done]. simpl.
    apply IH. by eapply step_history_ok.
Qed.

(** X13: the progress shown is a multiple of 10 between 0 and 100, at most
    one interval is set, and without the bar the progress is at rest. *)
Theorem progress_bar_bounded (st : state) :
  reachable st →
  (∃ k, progress st = (10 * Z.of_nat k)%Z ∧ k ≤ 10) ∧
  size (timers st) ≤ 1 ∧
  (progress_bar st = None → progress st = 0%Z ∧ timers st = ∅) ∧
  (∀ w, progress_bar st = Some w → (0 ≤ w ≤ 100)%Z ∧ size (timers st) = 1).
Proof.
  intros (_ & _ & _ & _ & _ & Hsim & _)%reachable_app_inv.
  unfold progress_bar.
  destruct Hsim as [(-> & -> & ->)|(-> & i & tm & k & -> & -> & Hk)].
  - rewrite map_size_empty.
    split_and!; [exists 0; split; [done|lia]|lia|done..].
  - rewrite map_size_singleton.
    split_and!; [by exists k|lia|done|]. intros w [= <-]. lia.
Qed.

Lemma progress_bar_bounded_witness :
  (∃ k, progress sample_midway = (10 * Z.of_nat k)%Z ∧ k ≤ 10) ∧
  size (timers sample_midway) ≤ 1 ∧
  (progress_bar sample_midway = None →
   progress sample_midway = 0%Z ∧ timers sample_midway = ∅) ∧
  (∀ w, progress_bar sample_midway = Some w →
        (0 ≤ w ≤ 100)%Z ∧ size (timers sample_midway) = 1).
Proof.
  apply (progress_bar_bounded sample_midway).
  exists sample_midway_events. vm_compute. reflexivity.
Defined.

(** X14: an interval, once set, is only ever removed by its own firing at
    progress 100 or more, which also prepends the entry: no edit of the
    URL, no change of format or theme, no clearing of the history and no
    settling fetch stops a simulation. *)
Theorem interval_never_cancelled (st : state) (i : nat) (tm : timer)
    (ev : event) (st' : state) :
  reachable st → timers st !! i = Some tm → step st ev = Some st' →
  timers st' !! i = Some tm ∨
  ∃ now, ev = IntervalFired i now ∧ (progress st >= 100)%Z ∧
         timers st' = ∅ ∧ history st' = new_entry tm now :: history st.
Proof.
  intros (_ & _ & _ & _ & _ & Hsim & _)%reachable_app_inv Hi Hstep.
  destruct Hsim as [(_ & Ht & _)|(Hl & j & tm' & k & Ht & Hp & Hk)].
  { rewrite Ht in Hi. by rewrite lookup_empty in Hi. }
  pose proof (step_frame _ _ _ Hstep) as Hfr.
  destruct ev as [newUrl|rid o|f|q| | |i' now|];
    try (destruct Hfr as (_ & _ & -> & _); by left).
  - cbn [step] in Hstep. unfold submit_disabled in Hstep.
    rewrite Hl in Hstep. done.
  - rewrite Ht in Hi. apply lookup_singleton_Some in Hi as [-> ->].
    assert (i' = i) as ->.
    { cbn [step] in Hstep. rewrite Ht in Hstep.
      destruct (decide (i' = i)) as [|Hne]; [done|].
      by rewrite lookup_singleton_ne in Hstep. }
    destruct (decide (progress st < 100)%Z) as [Hlt|Hge].
    + destruct (incrementing_tick i tm st now Ht Hlt)
        as (st2 & Hs2 & _ & _ & Ht2 & _).
      rewrite Hstep in Hs2. injection Hs2 as <-. left.
      by rewrite Ht2, Ht, lookup_singleton_eq.
    + destruct (completing_tick i tm st now Ht ltac:(lia))
        as (st2 & Hs2 & _ & _ & Ht2 & Hh2 & _).
      rewrite Hstep in Hs2. injection Hs2 as <-. right.
      exists now. split_and!; [done|lia|done|done].
Qed.

Lemma interval_never_cancelled_witness :
  timers (handleUrlChange [] sample_midway) !! 1
  = Some (snapshot sample_ready) ∨
  ∃ now, UrlInput [] = IntervalFired 1 now ∧
         (progress sample_midway >= 100)%Z ∧
         timers (handleUrlChange [] sample_midway) = ∅ ∧
         history (handleUrlChange [] sample_midway)
         = new_entry (snapshot sample_ready) now :: history sample_midway.
Proof.
  apply (interval_never_cancelled sample_midway 1 (snapshot sample_ready)
           (UrlInput []) (handleUrlChange [] sample_midway)).
  - exists sample_midway_events. vm_compute. reflexivity.
  - vm_compute. reflexivity.
  - vm_compute. reflexivity.
Defined.

(** X6: every request in flight in a reachable state was launched for an
    identifier that [getVideoId] returned: 11 code units, none of them
    [#], [&] or [?]; its URL is the oEmbed template filled with that
    identifier, and its number is below the next one to be given. *)
Theorem pending_requests_wellformed (st : state) (rid : nat) (rq : request) :
  reachable st → pending st !! rid = Some rq →
  rid < next_request st ∧
  length (req_videoId rq) = 11 ∧
  Forall (λ c, is_delim c = false) (req_videoId rq) ∧
  req_url rq
  = str "https://www.youtube.com/oembed?url=https://www.youtube.com/watch?v="
    ++ req_videoId rq ++ str "&format=json".
Proof.
  intros (_ & _ & Hrq & _)%reachable_app_inv Hl.
  destruct (Hrq _ _ Hl) as (? & Hid & ?).
  apply good_id_shape in Hid as [? ?]. done.
Qed.

Lemma pending_requests_wellformed_witness :
  0 < next_request sample_fetching ∧
  length (req_videoId {| req_url := oembed_url sample_id_A;
                         req_videoId := sample_id_A |}) = 11 ∧
  Forall (λ c, is_delim c = false)
    (req_videoId {| req_url := oembed_url sample_id_A;
                    req_videoId := sample_id_A |}) ∧
  req_url {| req_url := oembed_url sample_id_A; req_videoId := sample_id_A |}
  = str "https://www.youtube.com/oembed?url=https://www.youtube.com/watch?v="
    ++ req_videoId {| req_url := oembed_url sample_id_A;
                      req_videoId := sample_id_A |}
    ++ str "&format=json".
Proof.
  apply (pending_requests_wellformed sample_fetching 0
           {| req_url := oembed_url sample_id_A; req_videoId := sample_id_A |}).
  - exists sample_fetching_events. vm_compute. reflexivity.
  - vm_compute. reflexivity.
Defined.

(** X7: every edit that holds an identifier launches a request of its own,
    also when the identifier is the one already shown or already being
    fetched: nothing is deduplicated or debounced.  The metadata shown
    stays as it was while the request is in flight, and with it the
    state of the submit control. *)
Theorem edit_launches_request (st : state) (newUrl id : list N) :
  reachable st → getVideoId newUrl = Some id →
  pending (handleUrlChange newUrl st)
  = <[next_request st := {| req_url := oembed_url id; req_videoId := id |}]>
      (pending st) ∧
  size (pending (handleUrlChange newUrl st)) = S (size (pending st)) ∧
  next_request (handleUrlChange newUrl st) = S (next_request st) ∧
  spinner_shown (handleUrlChange newUrl st) = true ∧
  metadata (handleUrlChange newUrl st) = metadata st ∧
  submit_disabled (handleUrlChange newUrl st) = submit_disabled st.
Proof.
  intros (_ & _ & Hrq & _)%reachable_app_inv Hid.
  assert (length id = 11) as Hlen by (apply good_id_shape; by exists newUrl).
  destruct id as [|c cs]; [done|].
  unfold handleUrlChange. rewrite Hid. simpl. split_and!; try done.
  apply map_size_insert_None.
  destruct (pending st !! next_request st) as [rq|] eqn:E; [|done].
  destruct (Hrq _ _ E). lia.
Qed.

Lemma edit_launches_request_witness :
  pending (handleUrlChange sample_url_A sample_fetching)
  = <[next_request sample_fetching :=
        {| req_url := oembed_url sample_id_A; req_videoId := sample_id_A |}]>
      (pending sample_fetching) ∧
  size (pending (handleUrlChange sample_url_A sample_fetching))
  = S (size (pending sample_fetching)) ∧
  next_request (handleUrlChange sample_url_A sample_fetching)
  = S (next_request sample_fetching) ∧
  spinner_shown (handleUrlChange sample_url_A sample_fetching) = true ∧
  metadata (handleUrlChange sample_url_A sample_fetching)
  = metadata sample_fetching ∧
  submit_disabled (handleUrlChange sample_url_A sample_fetching)
  = submit_disabled sample_fetching.
Proof.
  apply (edit_launches_request sample_fetching sample_url_A sample_id_A).
  - exists sample_fetching_events. vm_compute. reflexivity.
  - vm_compute. reflexivity.
Defined.

(** X8: the spinner is only shown while a request is in flight. *)
Theorem spinner_implies_pending (st : state) :
  reachable st → spinner_shown st = true → pending st ≠ ∅.
Proof. intros (_ & _ & _ & Hsp & _)%reachable_app_inv. exact Hsp. Qed.

Lemma spinner_implies_pending_witness :
  spinner_shown sample_fetching = true ∧ pending sample_fetching ≠ ∅.
Proof.
  split; [vm_compute; reflexivity|].
  apply (spinner_implies_pending sample_fetching).
  - exists sample_fetching_events. vm_compute. reflexivity.
  - vm_compute. reflexivity.
Defined.

(** X9: whatever metadata a reachable state holds was built by
    [fetchMetadata]: its description is its title and its thumbnail is
    the image-host template filled with an identifier of 11 code units
    that holds none of [#], [&], [?]. *)
Theorem metadata_wellformed (st : state) (md : VideoMetadata) :
  reachable st → metadata st = Some md →
  description md = title md ∧
  ∃ id, length id = 11 ∧ Forall (λ c, is_delim c = false) id ∧
        thumbnailUrl md
        = str "https://img.youtube.com/vi/" ++ id ++ str "/maxresdefault.jpg".
Proof.
  intros (_ & Hmd & _)%reachable_app_inv Hm.
  destruct (Hmd _ Hm) as (? & id & [? ?]%good_id_shape & ?). eauto.
Qed.

Lemma metadata_wellformed_witness :
  description (sample_metadata sample_id_A "Title" "Author")
  = title (sample_metadata sample_id_A "Title" "Author") ∧
  ∃ id, length id = 11 ∧ Forall (λ c, is_delim c = false) id ∧
        thumbnailUrl (sample_metadata sample_id_A "Title" "Author")
        = str "https://img.youtube.com/vi/" ++ id ++ str "/maxresdefault.jpg".
Proof.
  apply (metadata_wellformed sample_ready
           (sample_metadata sample_id_A "Title" "Author")).
  - exists sample_ready_events. vm_compute. reflexivity.
  - vm_compute. reflexivity.
Defined.

(** X15: every line of the history of a reachable state has its metadata and
    shows its image: an entry without metadata cannot come to be through
    the form. *)
Theorem history_entries_have_metadata (st : state) (e : DownloadHistory) :
  reachable st → e ∈ history st →
  ∃ md, entry_metadata e = Some md ∧
        thumbnail_shown e = Some (thumbnailUrl md) ∧
        description md = title md ∧
        ∃ id, length id = 11 ∧ thumbnailUrl md = thumbnail_url id.
Proof.
  intros (_ & _ & _ & _ & _ & _ & Hh)%reachable_app_inv He.
  rewrite Forall_forall in Hh.
  destruct (Hh _ He) as (_ & md & Hm & Hd & id & [Hlen _]%good_id_shape & Ht).
  exists md. split_and!; [done| |done|by exists id].
  unfold thumbnail_shown. rewrite Hm, Ht. done.
Qed.

Lemma history_entries_have_metadata_witness :
  ∃ md, entry_metadata sample_entry = Some md ∧
        thumbnail_shown sample_entry = Some (thumbnailUrl md) ∧
        description md = title md ∧
        ∃ id, length id = 11 ∧ thumbnailUrl md = thumbnail_url id.
Proof.
  apply (history_entries_have_metadata (after sample_session) sample_entry).
  - exists sample_session. vm_compute. reflexivity.
  - vm_compute. constructor.
Defined.

Lemma quality_option_nonempty q : q ∈ quality_options → q ≠ [].
Proof.
  unfold quality_options. intros Hq ->.
  repeat (apply elem_of_cons in Hq as [Hq|Hq]; [discriminate Hq|]).
  by apply elem_of_nil in Hq.
Qed.

(** X16: the quality selected is always one of the four options of the
    select; so is the quality of every history entry that has one, and a
    history line shows the quality after the format exactly when the
    entry is an mp4 one. *)
Theorem quality_always_an_option (st : state) :
  reachable st →
  quality st ∈ [str "1080p"; str "720p"; str "480p"; str "360p"] ∧
  ∀ e, e ∈ history st →
    (∀ q, entry_quality e = Some q →
          q ∈ [str "1080p"; str "720p"; str "480p"; str "360p"]) ∧
    (quality_suffix e ≠ [] ↔ entry_format e = mp4).
Proof.
  intros Hre. pose proof Hre as [evs Hrun].
  apply reachable_app_inv in Hre as (Hq & _ & _ & _ & _ & _ & Hh).
  split; [exact Hq|]. intros e He.
  rewrite Forall_forall in Hh. destruct (Hh _ He) as (Hqe & _).
  split; [exact Hqe|].
  assert (entry_ok e) as Hok.
  { assert (Forall entry_ok (history st)) as Hall
      by (eapply run_history_ok; [|exact Hrun]; constructor).
    rewrite Forall_forall in Hall. by apply Hall. }
  unfold quality_suffix. destruct (entry_quality e) as [[|c q]|] eqn:Eq.
  - by destruct (quality_option_nonempty [] (Hqe _ eq_refl)).
  - split; [intros _|done]. apply Hok. by eexists.
  - split; [done|]. intros [q Hq']%Hok. congruence.
Qed.

Lemma quality_always_an_option_witness :
  quality (after sample_session)
  ∈ [str "1080p"; str "720p"; str "480p"; str "360p"] ∧
  ∀ e, e ∈ history (after sample_session) →
    (∀ q, entry_quality e = Some q →
          q ∈ [str "1080p"; str "720p"; str "480p"; str "360p"]) ∧
    (quality_suffix e ≠ [] ↔ entry_format e = mp4).
Proof.
  apply (quality_always_an_option (after sample_session)).
  exists sample_session. vm_compute. reflexivity.
Defined.

(** * How the history grows *)

(** What one event does to the history: nothing, or it empties it (the
    clear button), or it prepends the entry of the interval that fired at
    progress 100 or more. *)
Lemma step_history_shape st ev st' :
  step st ev = Some st' →
  history st' = history st ∨
  (ev = ClearHistoryClick ∧ history st ≠ [] ∧ history st' = []) ∨
  (∃ i now tm, ev = IntervalFired i now ∧ timers st !! i = Some tm ∧
               (progress st >= 100)%Z ∧
               history st' = new_entry tm now :: history st).
Proof.
  intros Hstep. pose proof (step_frame _ _ _ Hstep) as Hfr.
  destruct ev as [newUrl|rid o|f|q| | |i now|]; cbn [is_clear] in Hfr;
    try (destruct Hfr as (_ & _ & _ & _ & ->); by left).
  - cbn [step] in Hstep. case_match; [done|]. injection Hstep as <-. by left.
  - cbn [step] in Hstep. destruct (timers st !! i) as [tm|] eqn:Ei; [|done].
    injection Hstep as <-. unfold interval_callback. case_bool_decide.
    + right; right. exists i, now, tm. done.
    + by left.
  - right; left. cbn [step] in Hstep. case_decide; [done|].
    destruct Hfr as (_ & _ & _ & _ & ->). done.
Qed.

(** X17: until the history is cleared, what it holds stays where it is and as
    it is: the history before a run is a suffix of the history after it,
    and the run has added at most one entry for each interval firing. *)
Theorem history_kept_until_cleared (st : state) (evs : list event)
    (st' : state) :
  run st evs = Some st' → existsb is_clear evs = false →
  history st `suffix_of` history st' ∧
  length (history st') ≤ length (history st) + ticks evs.
Proof.
  revert st. induction evs as [|ev evs IH]; intros st; simpl.
  - intros [= <-] _. split; [done|]. unfold ticks. simpl. lia.
  - destruct (step st ev) as [st1|] eqn:E; [|done]. simpl.
    intros Hrun [Hev Hevs]%orb_false_elim.
    destruct (IH _ Hrun Hevs) as [Hsuf Hlen].
    assert (ticks (ev :: evs) = (if is_tick ev then 1 else 0) + ticks evs)
      as -> by (unfold ticks; simpl; by destruct (is_tick ev)).
    destruct (step_history_shape _ _ _ E)
      as [Heq|[(-> & _)|(i & now & tm & -> & _ & _ & Heq)]].
    + rewrite Heq in *. split; [done|]. lia.
    + done.
    + rewrite Heq in *. split.
      * etrans; [|exact Hsuf]. by apply suffix_cons_r.
      * simpl in *. lia.
Qed.

Lemma history_kept_until_cleared_witness :
  history sample_complete `suffix_of`
    history (after (sample_complete_events ++ [IntervalFired 1 5500%N])) ∧
  length (history (after (sample_complete_events ++ [IntervalFired 1 5500%N])))
  ≤ length (history sample_complete) + ticks [IntervalFired 1 5500%N].
Proof.
  apply (history_kept_until_cleared sample_complete [IntervalFired 1 5500%N]
           (after (sample_complete_events ++ [IntervalFired 1 5500%N]))).
  - vm_compute. reflexivity.
  - reflexivity.
Defined.

Lemma step_count st ev st' :
  step st ev = Some st' →
  length (history st') + size (timers st')
  ≤ length (history st) + size (timers st) + (if is_submit ev then 1 else 0).
Proof.
  intros Hstep. pose proof (step_frame _ _ _ Hstep) as Hfr.
  destruct ev as [newUrl|rid o|f|q| | |i now|];
    cbn [is_clear is_submit] in *;
    try (destruct Hfr as (_ & _ & -> & _ & ->); lia).
  - cbn [step] in Hstep. case_match; [done|]. injection Hstep as <-.
    simpl. rewrite map_size_insert. destruct (timers st !! next_timer st);
      simpl; lia.
  - cbn [step] in Hstep. destruct (timers st !! i) as [tm|] eqn:Ei; [|done].
    injection Hstep as <-. unfold interval_callback. case_bool_decide.
    + simpl. rewrite map_size_delete_Some by eauto.
      assert (size (timers st) ≠ 0); [|lia].
      intros Hz%map_size_empty_iff. rewrite Hz in Ei.
      by rewrite lookup_empty in Ei.
    + simpl. lia.
  - destruct Hfr as (_ & _ & -> & _ & ->). simpl. lia.
Qed.

(** X18: no entry without a submission: a run adds to the history, counted
    together with the simulations still under way, at most as many
    entries as it has submissions. *)
Theorem history_bounded_by_submits (st : state) (evs : list event)
    (st' : state) :
  run st evs = Some st' →
  length (history st') + size (timers st')
  ≤ length (history st) + size (timers st) + submits evs.
Proof.
  revert st. induction evs as [|ev evs IH]; intros st; simpl.
  - intros [= <-]. unfold submits. simpl. lia.
  - destruct (step st ev) as [st1|] eqn:E; [|done]. simpl. intros Hrun.
    apply IH in Hrun. apply step_count in E.
    assert (submits (ev :: evs) = (if is_submit ev then 1 else 0) + submits evs)
      as -> by (unfold submits; simpl; by destruct (is_submit ev)).
    lia.
Qed.

Lemma history_bounded_by_submits_witness :
  length (history (after sample_session)) + size (timers (after sample_session))
  ≤ length (history init) + size (timers init) + submits sample_session.
Proof.
  apply (history_bounded_by_submits init sample_session (after sample_session)).
  vm_compute. reflexivity.
Defined.

Lemma run_newest_first evs :
  ∀ st st',
    StronglySorted (λ a b, (b ≤ a)%N) (entry_timestamp <$> history st) →
    (∀ e t, e ∈ history st → t ∈ clock_readings evs →
            (entry_timestamp e ≤ t)%N) →
    StronglySorted N.le (clock_readings evs) →
    run st evs = Some st' →
    StronglySorted (λ a b, (b ≤ a)%N) (entry_timestamp <$> history st').
Proof.
  induction evs as [|ev evs IH]; intros st st' Hs Hb Hc Hrun.
  - by injection Hrun as <-.
  - simpl in Hrun. destruct (step st ev) as [st1|] eqn:E; [|done].
    simpl in Hrun.
    assert (∀ t, t ∈ clock_readings evs → t ∈ clock_readings (ev :: evs))
      as Hsub by (intros t Ht; destruct ev; simpl; try done; by right).
    assert (StronglySorted N.le (clock_readings evs)) as Hc'
      by (destruct ev; simpl in Hc; try done; by inversion Hc).
    destruct (step_history_shape _ _ _ E)
      as [Heq|[(_ & _ & Heq)|(i & now & tm & -> & _ & _ & Heq)]].
    + apply (IH st1 st'); [by rewrite Heq| |done|done].
      intros e t He Ht. rewrite Heq in He. apply Hb; [done|by apply Hsub].
    + apply (IH st1 st'); [rewrite Heq; constructor| |done|done].
      intros e t He. rewrite Heq in He. by apply elem_of_nil in He.
    + simpl in Hc. apply StronglySorted_inv in Hc as [_ Hnow].
      rewrite Forall_forall in Hnow.
      apply (IH st1 st'); [| |done|done]; rewrite Heq.
      * simpl. constructor; [done|]. apply Forall_forall.
        intros t (e & -> & He)%list_elem_of_fmap. apply Hb; [done|by left].
      * intros e t [->|He]%elem_of_cons Ht.
        -- simpl. by apply Hnow.
        -- apply Hb; [done|]. by right.
Qed.

(** X19: newest first: when the clock does not run backwards from one
    interval firing to the next, the timestamps of the history never
    increase from its head to its end. *)
Theorem history_newest_first (evs : list event) (st : state) :
  run init evs = Some st →
  StronglySorted N.le (clock_readings evs) →
  StronglySorted (λ a b, (b ≤ a)%N) (entry_timestamp <$> history st).
Proof.
  intros Hrun Hc. apply (run_newest_first evs init st); try done.
  - constructor.
  - intros e t He. by apply elem_of_nil in He.
Qed.

Lemma history_newest_first_witness :
  length (history (after sample_two_downloads)) = 2 ∧
  StronglySorted (λ a b, (b ≤ a)%N)
    (entry_timestamp <$> history (after sample_two_downloads)).
Proof.
  split; [vm_compute; reflexivity|].
  apply (history_newest_first sample_two_downloads (after sample_two_downloads)).
  - vm_compute. reflexivity.
  - vm_compute.
    repeat first [apply SSorted_nil | apply SSorted_cons | apply List.Forall_nil
                 | apply List.Forall_cons | discriminate].
Defined.

(** * From the edit to the metadata *)




(** * More on the extractor *)

Lemma word_char_no_line_terminator c :
  is_word_char c = true → is_line_terminator c = false.
Proof.
  unfold is_word_char, is_line_terminator.
  rewrite !orb_true_iff, !andb_true_iff, !N.leb_le, N.eqb_eq.
  intros H. rewrite !orb_false_iff, !N.eqb_neq. lia.
Qed.

Lemma marker_no_line_terminator mk :
  marker mk → Forall (λ c, is_line_terminator c = false) mk.
Proof.
  intros [c Hc| |c Hc%word_char_no_line_terminator| | |]; simpl;
    repeat (constructor; [done|]); constructor.
Qed.

Lemma marker_length mk : marker mk → 2 ≤ length mk.
Proof. intros []; simpl; lia. Qed.

Lemma getVideoId_None s : (∀ id, ¬ recognized s id) → getVideoId s = None.
Proof.
  intros Hn. destruct (getVideoId s) as [id|] eqn:E; [|done].
  apply getVideoId_recognized in E. by destruct (Hn id).
Qed.

(** X1: nothing is asked of what stands before the marker but that it holds
    no line terminator: a string that the extractor accepts is accepted,
    with the same identifier, after any such text.  The host of the URL
    is not looked at. *)
Theorem getVideoId_prefix (p s id : list N) :
  Forall (λ c, is_line_terminator c = false) p →
  getVideoId s = Some id → getVideoId (p ++ s) = Some id.
Proof.
  intros Hp (pre & mk & rest & [(Hs & Hpre & Hmk) Hlast] & Hid & Hrest & Hlen)
    %getVideoId_recognized.
  apply getVideoId_recognized. exists (p ++ pre), mk, rest.
  split_and!; try done. split.
  - split_and!; [by rewrite Hs, <- app_assoc|by apply Forall_app|done].
  - intros pre' mk' tail' (Heq & Hpre' & Hmk'). rewrite length_app.
    apply app_eq_inv in Heq as [(k & -> & _)|(k & -> & Hk)].
    + rewrite length_app. lia.
    + apply Forall_app in Hpre' as [_ Hk'].
      specialize (Hlast k mk' tail' (conj Hk (conj Hk' Hmk'))).
      rewrite length_app. lia.
Qed.

Lemma getVideoId_prefix_witness :
  getVideoId (str "https://evil.example/?next=" ++ str "youtu.be/dQw4w9WgXcQ")
  = Some (str "dQw4w9WgXcQ").
Proof.
  apply (getVideoId_prefix (str "https://evil.example/?next=")
           (str "youtu.be/dQw4w9WgXcQ") (str "dQw4w9WgXcQ")).
  - apply no_line_terminator_check. vm_compute. reflexivity.
  - vm_compute. reflexivity.
Defined.

(** X2: a string that begins with a line terminator is never accepted,
    whatever follows: the marker has to stand in the first line. *)
Theorem getVideoId_leading_line_terminator (c : N) (s : list N) :
  is_line_terminator c = true → getVideoId (c :: s) = None.
Proof.
  intros Hc. apply getVideoId_None.
  intros id (pre & mk & rest & [(Hs & Hpre & Hmk) _] & _).
  destruct pre as [|c' pre]; simpl in Hs.
  - pose proof (marker_no_line_terminator _ Hmk) as Hno.
    pose proof (marker_length _ Hmk).
    destruct mk as [|c' mk]; simpl in *; [lia|].
    injection Hs as <- _. apply Forall_cons in Hno as [? _]. congruence.
  - injection Hs as <- _. apply Forall_cons in Hpre as [? _]. congruence.
Qed.

Lemma getVideoId_leading_line_terminator_witness :
  getVideoId (10%N :: str "https://youtu.be/dQw4w9WgXcQ") = None.
Proof.
  apply (getVideoId_leading_line_terminator 10%N
           (str "https://youtu.be/dQw4w9WgXcQ")).
  reflexivity.
Defined.

(** X3: a string of fewer than 13 code units, the empty string among them,
    is never accepted: the shortest marker has two and the identifier
    eleven. *)
Theorem getVideoId_short_input (s : list N) :
  length s < 13 → getVideoId s = None.
Proof.
  intros Hlen. apply getVideoId_None.
  intros id (pre & mk & rest & [(Hs & _ & Hmk) _] & _ & _ & Hid).
  apply marker_length in Hmk. rewrite Hs, !length_app in Hlen. lia.
Qed.

Lemma getVideoId_short_input_witness :
  getVideoId [] = None ∧ getVideoId (str "v/dQw4w9WgXc") = None.
Proof.
  split.
  - apply (getVideoId_short_input []). simpl. lia.
  - apply (getVideoId_short_input (str "v/dQw4w9WgXc")). simpl. lia.
Defined.

Lemma marker_free_spec l k mk tail :
  marker_free l = true → l = k ++ mk ++ tail → marker mk → False.
Proof.
  unfold marker_free. rewrite forallb_forall. intros Hfree -> Hmk.
  specialize (Hfree (length k)). rewrite drop_app_length in Hfree.
  assert (negb (bool_decide (is_Some (marker_at (mk ++ tail)))) = true) as Hn.
  { apply Hfree, in_seq. rewrite !length_app. lia. }
  apply negb_true_iff, bool_decide_eq_false in Hn. apply Hn.
  apply marker_at_Some. eauto.
Qed.

(** No marker begins inside [watch?v=] after its first character, given
    what follows it. *)
Lemma no_marker_inside_watch k k2 mk tail rest :
  str "watch?v=" = k ++ k2 → k ≠ [] → k2 ≠ [] →
  mk ++ tail = k2 ++ rest → marker mk → False.
Proof.
  intros Hw Hk Hk2 Heq Hmk.
  do 9 (destruct k as [|? k]; [by (done || (simpl in Hw; subst k2;
          destruct Hmk; simpl in Heq; discriminate Heq))|
        simpl in Hw; try discriminate Hw; injection Hw as <- Hw]).
Qed.

Section RoundTrip.
Variables (s pre mk id rest : list N).
Hypothesis Hsite : last_site s pre mk (id ++ rest).
Hypothesis Hid : Forall (λ c, is_delim c = false) id.

(** A marker inside the identifier, reached without a line terminator,
    would be a site of [s] to the right of the last one. *)
Lemma no_marker_inside_id k mk' k' :
  id = k ++ mk' ++ k' → Forall (λ c, is_line_terminator c = false) k →
  marker mk' → False.
Proof using Hsite.
  intros Hk Hno Hmk'. destruct Hsite as [(Hs & Hpre & Hmk) Hlast].
  specialize (Hlast (pre ++ mk ++ k) mk' (k' ++ rest)).
  pose proof (marker_length _ Hmk). rewrite !length_app in Hlast.
  assert (length pre + (length mk + length k) ≤ length pre); [|lia].
  apply Hlast. split_and!; [|by rewrite !Forall_app;
    split_and!; [|apply marker_no_line_terminator|]|done].
  rewrite Hs, Hk. by rewrite <- !app_assoc.
Qed.

(** No marker begins at the end of the identifier or inside it when
    [&format=json] follows. *)
Lemma no_marker_from_id k mk' tail :
  id ++ str "&format=json" = k ++ mk' ++ tail →
  Forall (λ c, is_line_terminator c = false) k →
  marker mk' → False.
Proof using Hsite Hid.
  intros Heq Hno Hmk'.
  apply app_eq_inv in Heq as [(k3 & Hk3 & Hm)|(k3 & -> & HF)].
  - apply app_eq_inv in Hm as [(k4 & Hk4 & HF)|(k4 & -> & _)].
    + destruct k4 as [|c4 k4].
      { rewrite app_nil_r in Hk4. subst mk'.
        apply (no_marker_inside_id k k3 []); [by rewrite app_nil_r|done..]. }
      simpl in HF. injection HF as <- HF.
      assert (Forall (λ c, is_delim c = false) k3) as Hk3d
        by (rewrite Hk3 in Hid; by apply Forall_app in Hid as [_ ?]).
      destruct Hmk' as [c Hc| |c Hc| | |]; simpl in Hk4;
        repeat (destruct k3 as [|? k3];
                [simpl in Hk4; simplify_eq; try discriminate HF;
                 try discriminate Hc
                |simpl in Hk4; injection Hk4 as <- Hk4;
                 try (apply Forall_cons in Hk3d as [Hd Hk3d];
                      try discriminate Hd)]);
        try (by destruct k3).
    + apply (no_marker_inside_id k mk' k4); done.
  - apply (marker_free_spec (str "&format=json") k3 mk' tail);
      [vm_compute; reflexivity|done..].
Qed.
End RoundTrip.

(** X4: the request leads back to the identifier: whatever identifier the
    extractor has returned for a string, it returns the same one for the
    URL that [fetchMetadata] requests for it. *)
Theorem getVideoId_oembed_url (s id : list N) :
  getVideoId s = Some id → getVideoId (oembed_url id) = Some id.
Proof.
  intros (pre & mk & rest & Hsite & Hid & Hrest & Hlen)%getVideoId_recognized.
  apply getVideoId_recognized.
  exists (str "https://www.youtube.com/oembed?url=https://www.youtube.com/"),
    (str "watch?v="), (str "&format=json").
  split_and!; [|done|right; by eexists _, _|done].
  split.
  - split_and!; [reflexivity| |apply marker_watch].
    apply no_line_terminator_check. vm_compute. reflexivity.
  - intros pre' mk' tail' (Heq & Hpre' & Hmk').
    match goal with |- _ ≤ length ?P => set (prefix := P) in * end.
    destruct (decide (length pre' ≤ length prefix)) as [|Hgt]; [done|].
    exfalso.
    change (oembed_url id)
      with (prefix ++ str "watch?v=" ++ id ++ str "&format=json") in Heq.
    apply app_eq_inv in Heq as [(k & HP & _)|(k & -> & Hk)].
    { rewrite HP, length_app in Hgt. lia. }
    apply Forall_app in Hpre' as [_ Hno].
    assert (k ≠ []) as Hne.
    { intros ->. rewrite app_nil_r in Hgt. lia. }
    apply app_eq_inv in Hk as [(k2 & HW & Hk2)|(k' & -> & Hk')].
    + destruct k2 as [|c2 k2].
      * apply (no_marker_from_id s pre mk id rest Hsite Hid [] mk' tail');
          [by rewrite Hk2|constructor|done].
      * by apply (no_marker_inside_watch k (c2 :: k2) mk' tail'
                    (id ++ str "&format=json")).
    + apply Forall_app in Hno as [_ Hno'].
      by apply (no_marker_from_id s pre mk id rest Hsite Hid k' mk' tail').
Qed.

Lemma getVideoId_oembed_url_witness :
  getVideoId (oembed_url (str "dQw4w9WgXcQ")) = Some (str "dQw4w9WgXcQ").
Proof.
  apply (getVideoId_oembed_url
           (str "https://www.youtube.com/embed/dQw4w9WgXcQ?rel=0")
           (str "dQw4w9WgXcQ")).
  vm_compute. reflexivity.
Defined.

(** * The console and the clear button *)

Lemma step_console st ev st' :
  step st ev = Some st' →
  ∃ errs, console st' = console st ++ errs ∧
          length errs = (if is_failed_fetch ev then 1 else 0) ∧
          Forall (λ l, ∃ e, l = LogError (str "Error fetching metadata:") e)
            errs.
Proof.
  intros Hstep.
  destruct ev as [newUrl|rid o|f|q| | |i now|]; cbn [step is_failed_fetch] in *.
  - injection Hstep as <-. exists []. rewrite app_nil_r.
    unfold handleUrlChange. by destruct (getVideoId newUrl) as [[|c cs]|].
  - destruct (pending st !! rid) as [rq|]; [|done].
    cbn [mbind option_bind] in Hstep.
    unfold handleUrlChange_resume, fetchMetadata_resume in Hstep.
    destruct (fetched_metadata (req_videoId rq) o) as [md|e] eqn:E;
      cbn [bind try_catch] in Hstep; injection Hstep as <-.
    + exists []. rewrite app_nil_r. split_and!; [done| |done].
      destruct (is_failure o) eqn:Ef; [|done]. exfalso.
      unfold fetched_metadata in E.
      by destruct o as [|[|[]]].
    + exists [LogError (str "Error fetching metadata:") e].
      split_and!; [done| |by constructor; eauto].
      by apply fetched_metadata_Throw in E as [[-> _]|[[-> _]|[-> _]]].
  - injection Hstep as <-. exists []. by rewrite app_nil_r.
  - case_decide; [|done]. injection Hstep as <-. exists [].
    by rewrite app_nil_r.
  - injection Hstep as <-. exists []. by rewrite app_nil_r.
  - case_match; [done|]. injection Hstep as <-. exists [].
    by rewrite app_nil_r.
  - destruct (timers st !! i) as [tm|]; [|done]. injection Hstep as <-.
    exists []. rewrite app_nil_r. unfold interval_callback.
    by case_bool_decide.
  - case_decide; [done|]. injection Hstep as <-. exists [].
    by rewrite app_nil_r.
Qed.

(** X12: every fetch that fails is written to the console once, with the
    message of [fetchMetadata], and nothing else ever is: a run appends
    as many entries as it has failed fetches and leaves the earlier ones
    in place. *)
Theorem console_counts_failures (st : state) (evs : list event) (st' : state) :
  run st evs = Some st' →
  ∃ errs, console st' = console st ++ errs ∧
          length errs = failures evs ∧
          Forall (λ l, ∃ e, l = LogError (str "Error fetching metadata:") e)
            errs.
Proof.
  revert st. induction evs as [|ev evs IH]; intros st; simpl.
  - intros [= <-]. exists []. by rewrite app_nil_r.
  - destruct (step st ev) as [st1|] eqn:E; [|done]. simpl. intros Hrun.
    destruct (step_console _ _ _ E) as (errs1 & H1 & Hl1 & Hf1).
    destruct (IH _ Hrun) as (errs2 & H2 & Hl2 & Hf2).
    exists (errs1 ++ errs2). split_and!.
    + by rewrite H2, H1, app_assoc.
    + rewrite length_app, Hl1, Hl2. unfold failures. simpl.
      by destruct (is_failed_fetch ev).
    + by apply Forall_app.
Qed.

Lemma console_counts_failures_witness :
  failures sample_retry = 2 ∧
  ∃ errs, console (after sample_retry) = console init ++ errs ∧
          length errs = failures sample_retry ∧
          Forall (λ l, ∃ e, l = LogError (str "Error fetching metadata:") e)
            errs.
Proof.
  split; [reflexivity|].
  apply (console_counts_failures init sample_retry (after sample_retry)).
  vm_compute. reflexivity.
Defined.

(** X20: the clear button is there exactly when the history is not empty;
    clicking it empties the history and touches nothing else, a running
    simulation and the requests in flight included, and the button is
    gone afterwards. *)
Theorem clear_history_click (st : state) :
  (is_Some (step st ClearHistoryClick) ↔ history st ≠ []) ∧
  ∀ st', step st ClearHistoryClick = Some st' →
    history st' = [] ∧ step st' ClearHistoryClick = None ∧
    timers st' = timers st ∧ progress st' = progress st ∧
    isLoading st' = isLoading st ∧ pending st' = pending st ∧
    metadata st' = metadata st ∧ url st' = url st ∧
    format st' = format st ∧ quality st' = quality st.
Proof.
  cbn [step]. split.
  - case_decide; split; try done; by intros [? ?].
  - intros st'. case_decide; [done|]. intros [= <-]. done.
Qed.

Lemma clear_history_click_witness :
  (is_Some (step (after sample_session) ClearHistoryClick) ↔
   history (after sample_session) ≠ []) ∧
  ∀ st', step (after sample_session) ClearHistoryClick = Some st' →
    history st' = [] ∧ step st' ClearHistoryClick = None ∧
    timers st' = timers (after sample_session) ∧
    progress st' = progress (after sample_session) ∧
    isLoading st' = isLoading (after sample_session) ∧
    pending st' = pending (after sample_session) ∧
    metadata st' = metadata (after sample_session) ∧
    url st' = url (after sample_session) ∧
    format st' = format (after sample_session) ∧
    quality st' = quality (after sample_session).
Proof. apply (clear_history_click (after sample_session)). Defined.

(** * Without a race *)

Lemma step_patient_inv st ev st' :
  patient_inv st → (is_edit ev = true → pending st = ∅) →
  step st ev = Some st' → patient_inv st'.
Proof.
  intros Hinv Hpat Hstep.
  destruct ev as [newUrl|rid o|f|q| | |i now|]; cbn [step is_edit] in *.
  - injection Hstep as <-. specialize (Hpat eq_refl).
    unfold handleUrlChange.
    destruct (getVideoId newUrl) as [[|c cs]|] eqn:Eid.
    + left. split; [done|]. intros md. simpl. done.
    + right. eexists _, _. simpl. rewrite Hpat. split; [apply insert_empty|].
      done.
    + left. split; [done|]. intros md. simpl. done.
  - destruct (pending st !! rid) as [rq|] eqn:Erq; [|done].
    cbn [mbind option_bind] in Hstep.
    destruct Hinv as [[Hp _]|(rid' & rq' & Hp & Hid)].
    { rewrite Hp in Erq. by rewrite lookup_empty in Erq. }
    rewrite Hp in Erq. apply lookup_singleton_Some in Erq as [<- <-].
    unfold handleUrlChange_resume, fetchMetadata_resume in Hstep.
    destruct (fetched_metadata (req_videoId rq') o) as [md|e] eqn:E;
      cbn [bind try_catch] in Hstep; injection Hstep as <-; left; simpl;
      rewrite Hp, delete_singleton_eq; (split; [done|]); intros md'; simpl;
      [|done].
    intros [= <-]. exists (req_videoId rq'). split; [done|].
    by apply fetched_metadata_Normal in E as (_ & _ & _ & _ & _ & ?).
  - injection Hstep as <-. exact Hinv.
  - case_decide; [|done]. injection Hstep as <-. exact Hinv.
  - injection Hstep as <-. exact Hinv.
  - case_match; [done|]. injection Hstep as <-. exact Hinv.
  - destruct (timers st !! i) as [tm|]; [|done]. injection Hstep as <-.
    unfold interval_callback. case_bool_decide; exact Hinv.
  - case_decide; [done|]. injection Hstep as <-. exact Hinv.
Qed.

Lemma run_patient_inv evs :
  ∀ st st', patient_inv st → patient_run st evs → run st evs = Some st' →
            patient_inv st'.
Proof.
  induction evs as [|ev evs IH]; intros st st' Hinv Hpat Hrun.
  - by injection Hrun as <-.
  - simpl in Hrun, Hpat. destruct Hpat as [Hev Hpat].
    destruct (step st ev) as [st1|] eqn:E; [|done]. simpl in Hrun.
    apply (IH st1 st'); [by eapply step_patient_inv|done..].
Qed.

(** X10: when no two fetches overlap (every edit waits until the request of
    the one before has settled), the metadata shown once the last request
    has settled belongs to the URL in the field: its thumbnail is the one
    of the identifier that the field holds.  A stale result
    needs overlapping requests. *)
Theorem metadata_matches_url_without_overlap (evs : list event) (st : state)
    (md : VideoMetadata) :
  run init evs = Some st → patient_run init evs →
  pending st = ∅ → metadata st = Some md →
  ∃ id, getVideoId (url st) = Some id ∧ thumbnailUrl md = thumbnail_url id.
Proof.
  intros Hrun Hpat Hp Hmd.
  assert (patient_inv st) as [[_ Hm]|(rid & rq & Hp' & _)].
  { apply (run_patient_inv evs init st); [|done..]. left. split; [done|].
    intros md'. simpl. done. }
  - by apply Hm.
  - rewrite Hp in Hp'. symmetry in Hp'. by apply map_non_empty_singleton in Hp'.
Qed.

Lemma metadata_matches_url_without_overlap_witness :
  ∃ id, getVideoId (url (after sample_retry)) = Some id ∧
        thumbnailUrl (sample_metadata sample_id_A "Title" "Author")
        = thumbnail_url id.
Proof.
  apply (metadata_matches_url_without_overlap sample_retry (after sample_retry)
           (sample_metadata sample_id_A "Title" "Author")).
  - vm_compute. reflexivity.
  - vm_compute.
    repeat split; first [intros _; reflexivity | intros H; discriminate H].
  - vm_compute. reflexivity.
  - vm_compute. reflexivity.
Defined.

(** * A response without the fields *)

(** X11: a JSON body that is an object without [title] and [author_name] is
    no failure: the metadata is set, with the three texts undefined and
    the thumbnail of the identifier, nothing is logged, and the submit
    control is enabled unless a simulation is running. *)
Theorem response_without_fields (videoId : list N)
    (fields : list (list N * json)) (st : state) :
  own_property fields (str "title") = None →
  own_property fields (str "author_name") = None →
  ∃ st',
    fetchMetadata_resume videoId (Responded (Json (JObj fields))) st
    = Normal st' ∧
    metadata st'
    = Some {| title := None; description := None; author := None;
              thumbnailUrl := thumbnail_url videoId |} ∧
    console st' = console st ∧
    submit_disabled st' = isLoading st.
Proof.
  intros Ht Ha. unfold fetchMetadata_resume, fetched_metadata.
  cbn [await_fetch await_json bind get_prop]. rewrite Ht, Ha.
  cbn [bind try_catch]. eexists. split; [reflexivity|].
  unfold submit_disabled. simpl. split_and!; [done..|].
  by destruct (isLoading st).
Qed.

Lemma response_without_fields_witness :
  ∃ st',
    fetchMetadata_resume sample_id_A
      (Responded (Json (JObj [(str "error", JStr (str "gone"))]))) init
    = Normal st' ∧
    metadata st'
    = Some {| title := None; description := None; author := None;
              thumbnailUrl := thumbnail_url sample_id_A |} ∧
    console st' = console init ∧
    submit_disabled st' = isLoading init.
Proof.
  apply (response_without_fields sample_id_A
           [(str "error", JStr (str "gone"))] init); reflexivity.
Defined.
